(** * STAmount: the ledger amount type of src/Amount.cpp

    A shallow embedding of the amount type (mantissa [value], decimal
    exponent [offset]), its canonical form, its wire codec, its comparison
    operators, its arithmetic and the offer settlement routine
    [getClaimed], followed by the properties established about them.

    Conventions of the embedding:
    - [uint64] quantities are integers of [Z]; every operation that can
      leave the 64-bit range is written with its wrap-around ([u64]).
    - [int] quantities ([offset]) are integers of [Z]; signed overflow is
      undefined in C++ and is not modelled.
    - a C++ exception is the outcome [Throw], a failed [assert] the outcome
      [AssertFail] (only when the build keeps assertions, [NDEBUG = false]).
    - loops run on fuel; running out of it is the distinct outcome
      [OutOfFuel], so that every equation [... = Ret x] below is a statement
      that the loop really ended.
    - the [name] label an amount inherits from [SerializedType] is passed
      around by the operators and never read; it is left out. *)

From Stdlib Require Import ZArith Lia Bool List.
Import ListNotations.
Local Open Scope Z_scope.

(** ** Outcomes of a call *)

(** The five messages with which the file throws [std::runtime_error]. *)
Inductive error : Type :=
| value_overflow            (* "value overflow" *)
| value_underflow           (* "value underflow" *)
| invalid_currency_value    (* "invalid currency value" *)
| illegal_offer             (* "illegal offer" *)
| internal_bn_error.        (* "internal bn error" *)

Inductive outcome (A : Type) : Type :=
| Ret (a : A)
| Throw (e : error)
| AssertFail
| OutOfFuel.

Arguments Ret {A} a.
Arguments Throw {A} e.
Arguments AssertFail {A}.
Arguments OutOfFuel {A}.

Definition bind {A B : Type} (c : outcome A) (k : A -> outcome B) : outcome B :=
  match c with
  | Ret a => k a
  | Throw e => Throw e
  | AssertFail => AssertFail
  | OutOfFuel => OutOfFuel
  end.

Notation "x <- c ;; k" := (bind c (fun x => k))
  (at level 61, c at next level, right associativity).
Notation "c ;; k" := (bind c (fun _ => k))
  (at level 61, right associativity).

(** [while (cond) body] on [fuel] iterations at most. *)
Fixpoint while {S : Type} (fuel : nat) (cond : S -> bool)
    (body : S -> outcome S) (s : S) : outcome S :=
  if cond s then
    match fuel with
    | O => OutOfFuel
    | Datatypes.S fuel' => s' <- body s ;; while fuel' cond body s'
    end
  else Ret s.

(** ** Machine integers *)

Definition u64 (z : Z) : Z := z mod 2 ^ 64.

(** ** The amount *)

Record STAmount : Type := mkAmount { value : Z; offset : Z }.

(** Modelled from the spec: the bounds of a non-zero mantissa, declared in
    SerializedTypes.h (not under src/); the spec gives MIN_MANTISSA = 10^15
    and MAX_MANTISSA = 10^16 - 1, as does the comment heading Amount.cpp. *)
Definition cMinValue : Z := 1000000000000000.
Definition cMaxValue : Z := 9999999999999999.

(** The bias of the exponent on the wire. *)
Definition cBias : Z := 142.

(** The default-constructed amount and the amount left by [zero()]. *)
Definition zeroAmount : STAmount := mkAmount 0 0.

(** Modelled from the spec: [STAmount::zero()], declared in
    SerializedTypes.h; it resets the amount to zero (mantissa 0,
    exponent 0). *)
Definition zero (_ : STAmount) : STAmount := zeroAmount.

(** Some amounts in canonical form: 10, 20, 40, 50, 80, 100 and 1000,
    then 60, 2, 1.5, 1 and 123456789012345.6. *)
Definition amount_10 : STAmount := mkAmount 1000000000000000 (-14).
Definition amount_20 : STAmount := mkAmount 2000000000000000 (-14).
Definition amount_40 : STAmount := mkAmount 4000000000000000 (-14).
Definition amount_50 : STAmount := mkAmount 5000000000000000 (-14).
Definition amount_80 : STAmount := mkAmount 8000000000000000 (-14).
Definition amount_100 : STAmount := mkAmount 1000000000000000 (-13).
Definition amount_1000 : STAmount := mkAmount 1000000000000000 (-12).
Definition amount_60 : STAmount := mkAmount 6000000000000000 (-14).
Definition amount_2 : STAmount := mkAmount 2000000000000000 (-15).
Definition amount_1_5 : STAmount := mkAmount 1500000000000000 (-15).
Definition amount_1 : STAmount := mkAmount 1000000000000000 (-15).
Definition amount_sample : STAmount := mkAmount 1234567890123456 (-1).
Definition amount_150 : STAmount := mkAmount 1500000000000000 (-13).
Definition amount_5000 : STAmount := mkAmount 5000000000000000 (-12).
(** The word that [add] writes for 123456789012345.6: the mantissa under
    the biased exponent -1 + 142. *)
Definition word_sample : Z := 1234567890123456 + 141 * 2 ^ 56.

(** Extended-precision helpers (OpenSSL's BIGNUM with a 64-bit word). *)
Definition BN_num_bits (z : Z) : Z := if z =? 0 then 0 else Z.log2 z + 1.
Definition BN_num_bytes (z : Z) : Z := (BN_num_bits z + 7) / 8.
(** [CBigNum::getulong] is [BN_get_word]: all ones when the number does
    not fit a word. *)
Definition getulong (z : Z) : Z := if z <? 2 ^ 64 then z else 2 ^ 64 - 1.

(** The byte stream, seen through its two 64-bit primitives. *)
Definition Serializer : Type := list Z.
Definition SerializerIterator : Type := list Z.

Definition add64 (w : Z) (s : Serializer) : Serializer := s ++ [u64 w].

(** Modelled from the spec: [SerializerIterator::get64] of the serializer
    (not under src/) reads the next unsigned 64-bit word and fails if the
    stream is exhausted; the kind of that failure is not specified and is
    rendered here by the codec's own error. *)
Definition get64 (sit : SerializerIterator) : outcome (Z * SerializerIterator) :=
  match sit with
  | [] => Throw invalid_currency_value
  | w :: rest => Ret (w, rest)
  end.

Section Amount.

(** Whether the build drops assertions. *)
Variable NDEBUG : bool.

(** The exponent range, declared in SerializedTypes.h (not under src/). *)
Variables cMinOffset cMaxOffset : Z.

Definition assert (b : bool) : outcome unit :=
  if NDEBUG || b then Ret tt else AssertFail.

(** The canonical form: zero is (0, 0); otherwise both fields are in
    range. *)
Definition is_canonical (a : STAmount) : bool :=
  ((value a =? 0) && (offset a =? 0))
  || ((cMinValue <=? value a) && (value a <=? cMaxValue)
      && (cMinOffset <=? offset a) && (offset a <=? cMaxOffset)).

Definition canonical (a : STAmount) : Prop := is_canonical a = true.

(** A canonical non-zero amount whose value, mantissa * 10^exponent, is
    greater than one. *)
Definition exceeds_one (den : STAmount) : Prop :=
  cMinValue <= value den <= cMaxValue
  /\ (-15 < offset den \/ (offset den = -15 /\ cMinValue < value den)).

(** *** STAmount::canonicalize *)

Definition grow_cond (a : STAmount) : bool := value a <? cMinValue.
Definition grow_body (a : STAmount) : outcome STAmount :=
  if offset a <=? cMinOffset then Throw value_overflow
  else Ret (mkAmount (u64 (value a * 10)) (offset a - 1)).

Definition shrink_cond (a : STAmount) : bool := cMaxValue <? value a.
Definition shrink_body (a : STAmount) : outcome STAmount :=
  if cMaxOffset <=? offset a then Throw value_underflow
  else Ret (mkAmount (value a / 10) (offset a + 1)).

(** A 64-bit mantissa passes either bound in fewer than 64 steps of a
    factor ten. *)
Definition canon_fuel : nat := 64%nat.

Definition canonicalize (a : STAmount) : outcome STAmount :=
  if value a =? 0 then Ret (mkAmount 0 0)
  else
    a1 <- while canon_fuel grow_cond grow_body a ;;
    a2 <- while canon_fuel shrink_cond shrink_body a1 ;;
    assert ((value a2 =? 0)
            || ((cMinValue <=? value a2) && (value a2 <=? cMaxValue))) ;;
    assert ((cMinOffset <=? offset a2) && (offset a2 <=? cMaxOffset)) ;;
    Ret a2.

(** Modelled from the spec: the constructor [STAmount(uint64 v = 0,
    int off = 0)], declared in SerializedTypes.h; an amount built from a
    raw integer and an exponent is canonicalized at once. *)
Definition STAmount_new (v : Z) (off : Z) : outcome STAmount :=
  canonicalize (mkAmount (u64 v) off).

(** *** The wire codec: STAmount::add and STAmount::construct *)

Definition wire_word (a : STAmount) : Z :=
  if value a =? 0 then 0
  else u64 (value a + u64 (Z.shiftl (u64 (offset a + cBias)) (64 - 8))).

Definition add (a : STAmount) (s : Serializer) : Serializer :=
  add64 (wire_word a) s.

Definition construct (sit : SerializerIterator)
    : outcome (STAmount * SerializerIterator) :=
  r <- get64 sit ;;
  let word := fst r in
  let off := Z.shiftr word (64 - 8) in
  let v := Z.land word (u64 (Z.lnot (u64 (Z.shiftl 255 (64 - 8))))) in
  if v =? 0 then
    if negb (off =? 0) then Throw invalid_currency_value
    else a <- STAmount_new v off ;; Ret (a, snd r)
  else
    let off := off - cBias in
    if (v <? cMinValue) || (cMaxValue <? v)
       || (off <? cMinOffset) || (cMaxOffset <? off)
    then Throw invalid_currency_value
    else a <- STAmount_new v off ;; Ret (a, snd r).

(** *** Comparison operators *)

Definition op_eq (x a : STAmount) : bool :=
  (offset x =? offset a) && (value x =? value a).

Definition op_ne (x a : STAmount) : bool :=
  negb (offset x =? offset a) || negb (value x =? value a).

Definition op_lt (x a : STAmount) : bool :=
  if value x =? 0 then false
  else if offset x <? offset a then true
  else if offset a <? offset x then false
  else value x <? value a.

Definition op_gt (x a : STAmount) : bool :=
  if value x =? 0 then negb (value a =? 0)
  else if offset x >? offset a then true
  else if offset a >? offset x then false
  else value x >? value a.

Definition op_le (x a : STAmount) : bool :=
  if value x =? 0 then value a =? 0
  else if offset x <? offset a then true
  else if offset a <? offset x then false
  else value x <=? value a.

Definition op_ge (x a : STAmount) : bool :=
  if value x =? 0 then true
  else if offset x >? offset a then true
  else if offset a >? offset x then false
  else value x >=? value a.

(** *** Arithmetic *)

(** The alignment loop shared by [operator+] and [operator-]:
    [while (v.offset < target) { v.value /= 10; v.offset += 1; }]. *)
Definition align_cond (target : Z) (v : STAmount) : bool := offset v <? target.
Definition align_body (v : STAmount) : outcome STAmount :=
  Ret (mkAmount (value v / 10) (offset v + 1)).
Definition align_to (target : Z) (v : STAmount) : outcome STAmount :=
  while (Z.to_nat (target - offset v)) (align_cond target) align_body v.

(** Both loops in turn; the second one sees the first operand as the
    first loop left it. *)
Definition align (v1 v2 : STAmount) : outcome (STAmount * STAmount) :=
  v1' <- align_to (offset v2) v1 ;;
  v2' <- align_to (offset v1') v2 ;;
  Ret (v1', v2').

(** The pair the two loops end on. *)
Definition aligned (v1 v2 : STAmount) : STAmount * STAmount :=
  (mkAmount (value v1 / 10 ^ Z.max 0 (offset v2 - offset v1))
            (Z.max (offset v1) (offset v2)),
   mkAmount (value v2 / 10 ^ Z.max 0 (offset v1 - offset v2))
            (Z.max (offset v1) (offset v2))).

Definition op_add (v1 v2 : STAmount) : outcome STAmount :=
  p <- align v1 v2 ;;
  STAmount_new (u64 (value (fst p) + value (snd p))) (offset (fst p)).

Definition op_sub (v1 v2 : STAmount) : outcome STAmount :=
  p <- align v1 v2 ;;
  if value (fst p) <? value (snd p) then Throw value_underflow
  else STAmount_new (u64 (value (fst p) - value (snd p))) (offset (fst p)).

Definition op_div (num den : STAmount) : outcome STAmount :=
  if value den =? 0 then Throw illegal_offer
  else if value num =? 0 then STAmount_new 0 0
  else
    let quotient := (value num * 10000000000000000) / value den in
    assert (BN_num_bytes quotient <=? 60) ;;
    STAmount_new (getulong quotient) (offset num - offset den - 16).

Definition op_mul (v1 v2 : STAmount) : outcome STAmount :=
  if (value v1 =? 0) || (value v2 =? 0) then STAmount_new 0 0
  else
    let v := (value v1 * value v2) / 1000000000000000 in
    assert (BN_num_bytes v <=? 60) ;;
    STAmount_new (getulong v) (offset v1 + offset v2 + 15).

Definition getRate (offerOut offerIn : STAmount) : outcome STAmount :=
  op_div offerOut offerIn.

(** *** Settlement *)

(** The three amounts [getClaimed] receives by reference. *)
Record offer_state : Type :=
  mkState { offerOut : STAmount; offerIn : STAmount; paid : STAmount }.

(** The returned amount together with the three amounts after the call.
    When an operator throws, the call is abandoned and the partly updated
    amounts are not tracked. *)
Definition getClaimed (st : offer_state) : outcome (STAmount * offer_state) :=
  if value (paid st) =? 0 then
    r <- STAmount_new 0 0 ;; Ret (r, st)
  else if (value (offerIn st) =? 0) || (value (offerOut st) =? 0) then
    let st' := mkState (zero (offerOut st)) (zero (offerIn st)) (zero (paid st)) in
    r <- STAmount_new 0 0 ;; Ret (r, st')
  else if op_ge (paid st) (offerIn st) then
    let ret := offerOut st in
    let paid' := offerIn st in
    Ret (ret, mkState (zero (offerOut st)) (zero (offerIn st)) paid')
  else
    prod <- op_mul (paid st) (offerOut st) ;;
    ret <- op_div prod (offerIn st) ;;
    offerOut' <- op_sub (offerOut st) ret ;;
    offerIn' <- op_sub (offerIn st) (paid st) ;;
    if (value offerOut' =? 0) || (value offerIn' =? 0) then
      Ret (ret, mkState (zero offerOut') (zero offerIn') (paid st))
    else
      Ret (ret, mkState offerOut' offerIn' (paid st)).


(** The offer 100 for 50 met by a payment of 10, and by one of 60. *)
Definition partial_state : offer_state := mkState amount_100 amount_50 amount_10.
Definition full_state : offer_state := mkState amount_100 amount_50 amount_60.
(** An offer with nothing left to give, met by a payment of 60. *)
Definition dead_state : offer_state := mkState zeroAmount amount_50 amount_60.
(** A payment of nothing against an offer that asks nothing. *)
Definition idle_state : offer_state := mkState amount_100 zeroAmount zeroAmount.

(** *** Assignment and compound assignment

    Each of these methods updates [*this]; the embedding returns the new
    [*this]. *)

(** [operator=(const STAmount&)]: both fields are copied. *)
Definition op_assign (_ a : STAmount) : STAmount :=
  mkAmount (value a) (offset a).

(** [operator+=(const STAmount&)] and [operator-=(const STAmount&)]. *)
Definition op_add_assign (x a : STAmount) : outcome STAmount :=
  r <- op_add x a ;; Ret (op_assign x r).

Definition op_sub_assign (x a : STAmount) : outcome STAmount :=
  r <- op_sub x a ;; Ret (op_assign x r).

(** [operator=(uint64)], [operator+=(uint64)] and [operator-=(uint64)]. *)
Definition op_assign_u64 (x : STAmount) (v : Z) : outcome STAmount :=
  r <- STAmount_new v 0 ;; Ret (op_assign x r).

Definition op_add_assign_u64 (x : STAmount) (v : Z) : outcome STAmount :=
  a <- STAmount_new v 0 ;; op_add_assign x a.

Definition op_sub_assign_u64 (x : STAmount) (v : Z) : outcome STAmount :=
  a <- STAmount_new v 0 ;; op_sub_assign x a.

(** *** The number an amount stands for

    [value * 10 ^ offset], compared after scaling both sides by the
    smaller of the two exponents, so that only integers are compared. *)
Definition scaled (m : Z) (a : STAmount) : Z := value a * 10 ^ (offset a - m).

Definition num_lt (a b : STAmount) : Prop :=
  scaled (Z.min (offset a) (offset b)) a < scaled (Z.min (offset a) (offset b)) b.

Definition num_le (a b : STAmount) : Prop :=
  scaled (Z.min (offset a) (offset b)) a <= scaled (Z.min (offset a) (offset b)) b.

(** *** Whole numbers

    [a] is the canonical amount of the integer [n >= 1]: [n] followed by
    [j] zeros, with exponent [-j]. *)
Definition integer_amount (n : Z) (a : STAmount) : Prop :=
  exists j : Z,
    0 <= j /\ cMinValue <= n * 10 ^ j <= cMaxValue
    /\ a = mkAmount (n * 10 ^ j) (- j).

(** * Properties *)

(** ** Loops and the canonical form *)

Lemma while_exit {S : Type} (fuel : nat) (cond : S -> bool)
    (body : S -> outcome S) (s : S) :
  cond s = false -> while fuel cond body s = Ret s.
Proof. intros H; destruct fuel; simpl; rewrite H; reflexivity. Qed.

Lemma while_step {S : Type} (fuel : nat) (cond : S -> bool)
    (body : S -> outcome S) (s : S) :
  cond s = true ->
  while (Datatypes.S fuel) cond body s = (s' <- body s ;; while fuel cond body s').
Proof. intros H; simpl; rewrite H; reflexivity. Qed.

Lemma canonical_inv (a : STAmount) :
  canonical a ->
  (value a = 0 /\ offset a = 0)
  \/ (cMinValue <= value a <= cMaxValue /\ cMinOffset <= offset a <= cMaxOffset).
Proof.
  unfold canonical, is_canonical.
  rewrite orb_true_iff, !andb_true_iff, !Z.eqb_eq, !Z.leb_le. tauto.
Qed.

Lemma canonical_nonzero (a : STAmount) :
  canonical a -> value a <> 0 ->
  cMinValue <= value a <= cMaxValue /\ cMinOffset <= offset a <= cMaxOffset.
Proof. intros Ha Hv. destruct (canonical_inv a Ha); [tauto | assumption]. Qed.

Lemma canonical_zero (a : STAmount) :
  canonical a -> value a = 0 -> a = zeroAmount.
Proof.
  intros Ha Hv. destruct a as [v e]; simpl in *.
  destruct (canonical_inv _ Ha) as [[_ He] | [Hr _]]; simpl in *.
  - subst; reflexivity.
  - unfold cMinValue in Hr; lia.
Qed.

(** ** Ordering *)

Ltac cmp_cases :=
  rewrite ?Z.gtb_ltb, ?Z.geb_leb;
  repeat match goal with
         | |- context [?x =? ?y] => destruct (Z.eqb_spec x y)
         | |- context [?x <? ?y] => destruct (Z.ltb_spec x y)
         | |- context [?x <=? ?y] => destruct (Z.leb_spec x y)
         end.

Lemma op_le_zero_left (a b : STAmount) :
  value a = 0 -> op_le a b = (value b =? 0).
Proof. intros Ha; unfold op_le; rewrite Ha; reflexivity. Qed.

Lemma op_ge_zero_left (a b : STAmount) : value a = 0 -> op_ge a b = true.
Proof. intros Ha; unfold op_ge; rewrite Ha; reflexivity. Qed.

Lemma op_eq_true (a b : STAmount) : op_eq a b = true <-> a = b.
Proof.
  unfold op_eq; rewrite andb_true_iff, !Z.eqb_eq.
  destruct a, b; simpl; split.
  - intros [-> ->]; reflexivity.
  - intros [= -> ->]; auto.
Qed.

(** C1: an amount that is zero on the left of [<=] is answered with
    "is the right operand zero?": the zero amount is below-or-equal to
    itself only, and in particular not to a non-zero amount.  The guard
    that answers [true] for every right operand sits in [>=]
    ([op_ge_zero_left]). *)
Theorem op_le_zero_only_zero (b : STAmount) :
  op_le zeroAmount b = (value b =? 0)
  /\ op_le zeroAmount (mkAmount cMinValue 0) = false
  /\ op_ge zeroAmount b = true.
Proof. repeat split. Qed.

(** The half of C1 that the code does satisfy: the zero amount is equal
    (operator==) to itself only. *)
Lemma op_eq_zero_only_zero (b : STAmount) :
  op_eq zeroAmount b = true <-> b = zeroAmount.
Proof. rewrite op_eq_true; split; congruence. Qed.

(** C7: for canonical amounts [a] and [b] exactly one of [a < b],
    [a == b], [a > b] holds. *)
Theorem ordering_trichotomy (a b : STAmount) :
  canonical a -> canonical b ->
  (op_lt a b = true /\ op_eq a b = false /\ op_gt a b = false)
  \/ (op_lt a b = false /\ op_eq a b = true /\ op_gt a b = false)
  \/ (op_lt a b = false /\ op_eq a b = false /\ op_gt a b = true).
Proof.
  intros Ha Hb.
  destruct a as [va ea], b as [vb eb].
  destruct (canonical_inv _ Ha) as [[Hva Hea] | [Hva Hea]];
    destruct (canonical_inv _ Hb) as [[Hvb Heb] | [Hvb Heb]];
    unfold cMinValue, cMaxValue in *; simpl in *;
    unfold op_lt, op_eq, op_gt; simpl; cmp_cases; simpl;
    try lia; tauto.
Qed.

(** C9: with a zero amount on the left, [operator>] answers [true]
    exactly when the right operand is non-zero. *)
Theorem op_gt_zero_left (a b : STAmount) :
  value a = 0 -> (op_gt a b = true <-> value b <> 0).
Proof.
  intros Ha; unfold op_gt; rewrite Ha; simpl.
  destruct (Z.eqb_spec (value b) 0); simpl; split; intros; congruence.
Qed.

(** ** Canonicalization of a mantissa that is already in range *)

Lemma assert_true (b : bool) : b = true -> assert b = Ret tt.
Proof. intros ->; unfold assert; rewrite orb_true_r; reflexivity. Qed.

Lemma u64_small (z : Z) : 0 <= z < 2 ^ 64 -> u64 z = z.
Proof. intros H; unfold u64; apply Z.mod_small; exact H. Qed.

Lemma canonicalize_window (a : STAmount) :
  cMinValue <= value a <= cMaxValue ->
  canonicalize a
  = (assert ((cMinOffset <=? offset a) && (offset a <=? cMaxOffset)) ;; Ret a).
Proof.
  intros H. unfold canonicalize.
  destruct (Z.eqb_spec (value a) 0) as [E | _];
    [unfold cMinValue in H; lia |].
  rewrite while_exit by (unfold grow_cond; apply Z.ltb_ge; lia).
  cbn [bind].
  rewrite while_exit by (unfold shrink_cond; apply Z.ltb_ge; lia).
  cbn [bind].
  rewrite (assert_true (_ || _)); [reflexivity |].
  apply orb_true_iff; right.
  apply andb_true_iff; split; apply Z.leb_le; lia.
Qed.

Lemma canonicalize_canonical (a : STAmount) :
  canonical a -> canonicalize a = Ret a.
Proof.
  intros Ha. destruct (Z.eq_dec (value a) 0) as [E | E].
  - rewrite (canonical_zero a Ha E); reflexivity.
  - destruct (canonical_nonzero a Ha E) as [Hv He].
    rewrite canonicalize_window by exact Hv.
    rewrite assert_true; [reflexivity |].
    apply andb_true_iff; split; apply Z.leb_le; lia.
Qed.

Lemma STAmount_new_canonical (a : STAmount) :
  canonical a -> STAmount_new (value a) (offset a) = Ret a.
Proof.
  intros Ha. unfold STAmount_new.
  assert (Hu : u64 (value a) = value a).
  { apply u64_small. destruct (canonical_inv a Ha) as [[-> _] | [Hv _]];
      [| unfold cMinValue, cMaxValue in Hv]; lia. }
  rewrite Hu. destruct a; simpl. apply canonicalize_canonical; exact Ha.
Qed.

(** ** The wire codec *)

Lemma wire_mask : u64 (Z.lnot (u64 (Z.shiftl 255 (64 - 8)))) = Z.ones 56.
Proof. reflexivity. Qed.

Lemma wire_word_nonzero (x : STAmount) :
  value x <> 0 -> 0 <= value x < 2 ^ 56 -> 0 <= offset x + cBias <= 255 ->
  wire_word x = value x + (offset x + cBias) * 2 ^ 56.
Proof.
  intros Hnz Hv He. unfold wire_word.
  destruct (Z.eqb_spec (value x) 0) as [E | _]; [contradiction |].
  change (64 - 8) with 56.
  rewrite (u64_small (offset x + cBias)) by lia.
  rewrite Z.shiftl_mul_pow2 by lia.
  rewrite (u64_small (_ * _)) by lia.
  apply u64_small. lia.
Qed.

Lemma wire_fields (v k : Z) :
  0 <= v < 2 ^ 56 ->
  Z.shiftr (v + k * 2 ^ 56) (64 - 8) = k
  /\ Z.land (v + k * 2 ^ 56) (Z.ones 56) = v.
Proof.
  intros Hv. change (64 - 8) with 56. split.
  - rewrite Z.shiftr_div_pow2 by lia.
    rewrite Z.div_add by lia. rewrite Z.div_small by lia. lia.
  - rewrite Z.land_ones by lia.
    rewrite Z.mod_add by lia. apply Z.mod_small; lia.
Qed.

(** C2: when the biased exponent range fits the eight bits of the wire
    word, encoding a canonical amount and decoding the word succeeds and
    gives the amount back, with the rest of the stream untouched. *)
Theorem codec_round_trip (x : STAmount) (rest : SerializerIterator) :
  - cBias <= cMinOffset -> cMaxOffset <= 255 - cBias ->
  canonical x ->
  construct (add x [] ++ rest) = Ret (x, rest).
Proof.
  intros Hlo Hhi Hx. unfold construct, add, add64. cbn [app get64 bind fst snd].
  rewrite wire_mask.
  destruct (Z.eq_dec (value x) 0) as [E | E].
  - rewrite (canonical_zero x Hx E). reflexivity.
  - destruct (canonical_nonzero x Hx E) as [Hv He].
    assert (Hv' : 0 <= value x < 2 ^ 56)
      by (unfold cMinValue, cMaxValue in Hv; lia).
    assert (Hk : 0 <= offset x + cBias <= 255) by (unfold cBias in *; lia).
    rewrite (wire_word_nonzero x E Hv' Hk).
    rewrite (u64_small (_ + _)) by lia.
    destruct (wire_fields (value x) (offset x + cBias) Hv') as [-> ->].
    destruct (Z.eqb_spec (value x) 0) as [E' | _]; [contradiction |].
    replace (offset x + cBias - cBias) with (offset x) by lia.
    replace ((value x <? cMinValue) || (cMaxValue <? value x)
             || (offset x <? cMinOffset) || (cMaxOffset <? offset x))
      with false.
    + rewrite STAmount_new_canonical by exact Hx. reflexivity.
    + symmetry. rewrite !orb_false_iff, !Z.ltb_ge. lia.
Qed.

(** A word with an empty mantissa field and a non-empty exponent field
    is refused. *)
Lemma construct_rejects_biased_zero (k : Z) (rest : SerializerIterator) :
  0 < k <= 255 ->
  construct (k * 2 ^ 56 :: rest) = Throw invalid_currency_value.
Proof.
  intros Hk. unfold construct. cbn [get64 bind fst snd]. rewrite wire_mask.
  destruct (wire_fields 0 k) as [H1 H2]; [lia |].
  change (0 + k * 2 ^ 56) with (k * 2 ^ 56) in H1, H2.
  rewrite H1, H2. cbn [Z.eqb].
  destruct (Z.eqb_spec k 0); [lia | reflexivity].
Qed.

(** ** Alignment of two operands *)

Lemma align_loop (target : Z) (n : nat) :
  forall v : STAmount,
    Z.to_nat (target - offset v) = n ->
    while n (align_cond target) align_body v
    = Ret (mkAmount (value v / 10 ^ Z.of_nat n) (offset v + Z.of_nat n)).
Proof.
  induction n as [| n IH]; intros v Hn.
  - rewrite while_exit by (unfold align_cond; apply Z.ltb_ge; lia).
    destruct v as [x e]; simpl. rewrite Z.div_1_r, Z.add_0_r. reflexivity.
  - rewrite while_step by (unfold align_cond; apply Z.ltb_lt; lia).
    unfold align_body at 1; cbn [bind].
    rewrite IH by (simpl; lia). cbn [value offset].
    rewrite Z.div_div by lia.
    rewrite Nat2Z.inj_succ, Z.pow_succ_r by lia.
    f_equal. f_equal. lia.
Qed.

(** The loop ends, on the mantissa cut by as many digits as the exponent
    was short of [target]. *)
Lemma align_to_spec (target : Z) (v : STAmount) :
  align_to target v
  = Ret (mkAmount (value v / 10 ^ Z.max 0 (target - offset v))
                  (Z.max (offset v) target)).
Proof.
  unfold align_to. rewrite (align_loop target _ v eq_refl).
  replace (Z.of_nat (Z.to_nat (target - offset v)))
    with (Z.max 0 (target - offset v)) by lia.
  f_equal. f_equal. lia.
Qed.

Lemma align_spec (v1 v2 : STAmount) : align v1 v2 = Ret (aligned v1 v2).
Proof.
  unfold align, aligned. rewrite align_to_spec; cbn [bind offset].
  rewrite align_to_spec; cbn [bind offset].
  do 2 f_equal. f_equal; [f_equal; f_equal |]; lia.
Qed.

(** ** Subtraction *)

(** C6 (as the code has it): when the aligned mantissa of the minuend is
    smaller than that of the subtrahend, [operator-] throws, and what it
    throws is "value underflow". *)
Theorem op_sub_negative_underflow (v1 v2 : STAmount) (p : STAmount * STAmount) :
  align v1 v2 = Ret p ->
  value (fst p) < value (snd p) ->
  op_sub v1 v2 = Throw value_underflow.
Proof.
  intros Hp Hlt. unfold op_sub. rewrite Hp; cbn [bind].
  apply Z.ltb_lt in Hlt. rewrite Hlt. reflexivity.
Qed.

(** Conversely the guard is the only place where [operator-] can leave
    through that branch: with the minuend's aligned mantissa at least the
    subtrahend's, the call goes on to build the difference. *)
Lemma op_sub_guard_passed (v1 v2 : STAmount) :
  value (snd (aligned v1 v2)) <= value (fst (aligned v1 v2)) ->
  op_sub v1 v2
  = STAmount_new (u64 (value (fst (aligned v1 v2)) - value (snd (aligned v1 v2))))
                 (offset (fst (aligned v1 v2))).
Proof.
  intros Hle. unfold op_sub. rewrite align_spec; cbn [bind].
  apply Z.ltb_ge in Hle. rewrite Hle. reflexivity.
Qed.

(** ** Settlement: the full fill *)

(** C3 (as the code has it): when [paid], [offerIn] and [offerOut] are
    all non-zero and [paid >= offerIn], the call returns the whole
    [offerOut], leaves both sides of the offer at zero and sets [paid]
    to the former [offerIn]. *)
Theorem getClaimed_full_fill (st : offer_state) :
  value (paid st) <> 0 ->
  value (offerIn st) <> 0 ->
  value (offerOut st) <> 0 ->
  op_ge (paid st) (offerIn st) = true ->
  getClaimed st
  = Ret (offerOut st, mkState zeroAmount zeroAmount (offerIn st)).
Proof.
  intros Hp Hi Ho Hge. unfold getClaimed.
  apply Z.eqb_neq in Hp, Hi, Ho. rewrite Hp, Hi, Ho, Hge. reflexivity.
Qed.

(** The two guards that come before the comparison. *)
Lemma getClaimed_paid_zero (st : offer_state) :
  value (paid st) = 0 -> getClaimed st = Ret (zeroAmount, st).
Proof. intros Hp. unfold getClaimed. rewrite Hp. reflexivity. Qed.

Lemma getClaimed_dead_offer (st : offer_state) :
  value (paid st) <> 0 ->
  value (offerIn st) = 0 \/ value (offerOut st) = 0 ->
  getClaimed st = Ret (zeroAmount, mkState zeroAmount zeroAmount zeroAmount).
Proof.
  intros Hp Hd. unfold getClaimed. apply Z.eqb_neq in Hp. rewrite Hp.
  replace ((value (offerIn st) =? 0) || (value (offerOut st) =? 0)) with true.
  - reflexivity.
  - symmetry. apply orb_true_iff. rewrite !Z.eqb_eq. exact Hd.
Qed.

(** ** Canonicalization of a mantissa that is out of range *)

Lemma offsets_assert (e : Z) :
  cMinOffset <= e <= cMaxOffset ->
  assert ((cMinOffset <=? e) && (e <=? cMaxOffset)) = Ret tt.
Proof.
  intros He. apply assert_true.
  apply andb_true_iff; split; apply Z.leb_le; lia.
Qed.

(** The first loop, run [j] times: the mantissa gains [j] digits. *)
Lemma grow_loop (j : nat) :
  forall (fuel : nat) (v e : Z),
    (j <= fuel)%nat ->
    0 < v ->
    cMinValue <= v * 10 ^ Z.of_nat j <= cMaxValue ->
    cMinOffset <= e - Z.of_nat j ->
    while fuel grow_cond grow_body (mkAmount v e)
    = Ret (mkAmount (v * 10 ^ Z.of_nat j) (e - Z.of_nat j)).
Proof.
  induction j as [| j IH]; intros fuel v e Hf Hv Hw He.
  - change (10 ^ Z.of_nat 0) with 1 in *. rewrite Z.mul_1_r in *.
    rewrite while_exit by (unfold grow_cond; apply Z.ltb_ge; simpl; lia).
    f_equal. f_equal. simpl; lia.
  - rewrite Nat2Z.inj_succ, Z.pow_succ_r in * by lia.
    assert (Hp : 0 < 10 ^ Z.of_nat j) by (apply Z.pow_pos_nonneg; lia).
    assert (Hv10 : v * 10 <= cMaxValue) by nia.
    unfold cMinValue, cMaxValue in *.
    destruct fuel as [| fuel]; [lia |].
    rewrite while_step by (unfold grow_cond, cMinValue; apply Z.ltb_lt; simpl; lia).
    unfold grow_body at 1; cbn [offset value].
    destruct (Z.leb_spec e cMinOffset) as [Hle | _]; [lia |].
    cbn [bind]. rewrite u64_small by lia.
    rewrite (IH fuel (v * 10) (e - 1)); try lia.
    f_equal. f_equal; lia.
Qed.

Lemma canonicalize_grow (j : nat) (v e : Z) :
  (j <= canon_fuel)%nat ->
  0 < v ->
  cMinValue <= v * 10 ^ Z.of_nat j <= cMaxValue ->
  cMinOffset <= e - Z.of_nat j <= cMaxOffset ->
  canonicalize (mkAmount v e)
  = Ret (mkAmount (v * 10 ^ Z.of_nat j) (e - Z.of_nat j)).
Proof.
  intros Hj Hv Hw He. unfold canonicalize; cbn [value].
  destruct (Z.eqb_spec v 0) as [E | _]; [lia |].
  rewrite (grow_loop j) by (assumption || lia). cbn [bind].
  rewrite while_exit by (unfold shrink_cond; apply Z.ltb_ge; simpl; lia).
  cbn [bind value offset].
  rewrite (assert_true (_ || _)).
  - cbn [bind]. rewrite offsets_assert by exact He. reflexivity.
  - apply orb_true_iff; right.
    apply andb_true_iff; split; apply Z.leb_le; lia.
Qed.

(** A mantissa of sixteen or seventeen digits: the second loop runs at
    most once. *)
Lemma canonicalize_wide (v e : Z) :
  cMinValue <= v < 10 * cMinValue * 10 ->
  canonicalize (mkAmount v e)
  = if v <=? cMaxValue
    then assert ((cMinOffset <=? e) && (e <=? cMaxOffset)) ;; Ret (mkAmount v e)
    else if cMaxOffset <=? e then Throw value_underflow
    else assert ((cMinOffset <=? e + 1) && (e + 1 <=? cMaxOffset)) ;;
         Ret (mkAmount (v / 10) (e + 1)).
Proof.
  intros Hv. destruct (Z.leb_spec v cMaxValue) as [Hle | Hgt].
  - apply (canonicalize_window (mkAmount v e)). simpl; lia.
  - unfold cMinValue, cMaxValue in *.
    unfold canonicalize; cbn [value].
    destruct (Z.eqb_spec v 0) as [E | _]; [lia |].
    rewrite while_exit
      by (unfold grow_cond, cMinValue; apply Z.ltb_ge; simpl; lia).
    cbn [bind]. unfold canon_fuel.
    rewrite while_step
      by (unfold shrink_cond, cMaxValue; apply Z.ltb_lt; simpl; lia).
    unfold shrink_body at 1; cbn [value offset].
    destruct (Z.leb_spec cMaxOffset e) as [_ | _]; [reflexivity |].
    cbn [bind].
    assert (Hq : 1000000000000000 <= v / 10 <= 9999999999999999).
    { assert (v / 10 < 10000000000000000)
        by (apply Z.div_lt_upper_bound; lia).
      split; [apply Z.div_le_lower_bound |]; lia. }
    rewrite while_exit
      by (unfold shrink_cond, cMaxValue; apply Z.ltb_ge; simpl; lia).
    cbn [bind value offset].
    rewrite (assert_true (_ || _)); [reflexivity |].
    apply orb_true_iff; right.
    apply andb_true_iff; split; apply Z.leb_le; unfold cMinValue, cMaxValue; lia.
Qed.

(** What the caller knows when such a canonicalization returns. *)
Lemma canonicalize_wide_inv (v e : Z) (r : STAmount) :
  cMinValue <= v < 10 * cMinValue * 10 ->
  canonicalize (mkAmount v e) = Ret r ->
  (v <= cMaxValue /\ r = mkAmount v e)
  \/ (cMaxValue < v /\ r = mkAmount (v / 10) (e + 1)).
Proof.
  intros Hv. rewrite canonicalize_wide by exact Hv.
  destruct (Z.leb_spec v cMaxValue) as [Hle | Hgt].
  - unfold assert. destruct (NDEBUG || _); cbn [bind]; [| discriminate].
    intros [= <-]. left; auto.
  - destruct (cMaxOffset <=? e); [discriminate |].
    unfold assert. destruct (NDEBUG || _); cbn [bind]; [| discriminate].
    intros [= <-]. right; auto.
Qed.

(** ** Multiplication and division of non-zero mantissas *)

Lemma BN_num_bytes_small (z : Z) :
  0 <= z < 2 ^ 128 -> (BN_num_bytes z <=? 60) = true.
Proof.
  intros Hz. apply Z.leb_le. unfold BN_num_bytes, BN_num_bits.
  destruct (Z.eqb_spec z 0) as [E | E];
    [apply Z.div_le_upper_bound; lia |].
  assert (Hl : Z.log2 z < 128) by (apply Z.log2_lt_pow2; lia).
  apply Z.div_le_upper_bound; lia.
Qed.

Lemma getulong_small (z : Z) : z < 2 ^ 64 -> getulong z = z.
Proof.
  intros Hz. unfold getulong.
  destruct (Z.ltb_spec z (2 ^ 64)); [reflexivity | lia].
Qed.

Lemma op_mul_window (v1 v2 : STAmount) :
  cMinValue <= value v1 <= cMaxValue ->
  cMinValue <= value v2 <= cMaxValue ->
  cMinValue <= value v1 * value v2 / 1000000000000000 < 10 * cMinValue * 10
  /\ op_mul v1 v2
     = canonicalize (mkAmount (value v1 * value v2 / 1000000000000000)
                              (offset v1 + offset v2 + 15)).
Proof.
  intros H1 H2. unfold cMinValue, cMaxValue in *.
  assert (Hm : 1000000000000000 <= value v1 * value v2 / 1000000000000000
               < 10 * 1000000000000000 * 10).
  { split; [apply Z.div_le_lower_bound | apply Z.div_lt_upper_bound]; nia. }
  split; [exact Hm |].
  unfold op_mul.
  destruct (Z.eqb_spec (value v1) 0) as [E | _]; [lia |].
  destruct (Z.eqb_spec (value v2) 0) as [E | _]; [lia |].
  cbn [orb]. rewrite assert_true by (apply BN_num_bytes_small; lia).
  cbn [bind]. unfold STAmount_new.
  rewrite getulong_small, u64_small by lia. reflexivity.
Qed.

Lemma op_div_window (num den : STAmount) :
  cMinValue <= value num <= cMaxValue ->
  cMinValue <= value den <= cMaxValue ->
  cMinValue <= value num * 10000000000000000 / value den < 10 * cMinValue * 10
  /\ op_div num den
     = canonicalize (mkAmount (value num * 10000000000000000 / value den)
                              (offset num - offset den - 16)).
Proof.
  intros H1 H2. unfold cMinValue, cMaxValue in *.
  assert (Hq : 1000000000000000 <= value num * 10000000000000000 / value den
               < 10 * 1000000000000000 * 10).
  { split; [apply Z.div_le_lower_bound | apply Z.div_lt_upper_bound]; nia. }
  split; [exact Hq |].
  unfold op_div.
  destruct (Z.eqb_spec (value den) 0) as [E | _]; [lia |].
  destruct (Z.eqb_spec (value num) 0) as [E | _]; [lia |].
  rewrite assert_true by (apply BN_num_bytes_small; lia).
  cbn [bind]. unfold STAmount_new.
  rewrite getulong_small, u64_small by lia. reflexivity.
Qed.

(** ** Division at the bottom of the exponent range *)

(** C4: the smallest representable amount divided by an amount greater
    than one does not throw "value overflow".  The quotient's mantissa is
    already in range, so [canonicalize] never looks at the exponent, which
    ends below [cMinOffset]: a build with assertions stops on the assertion
    closing [canonicalize], a build without returns the out-of-range
    amount. *)
Theorem op_div_smallest_never_overflows (den : STAmount) :
  canonical den -> exceeds_one den ->
  exists r : STAmount,
    offset r < cMinOffset
    /\ cMinValue <= value r <= cMaxValue
    /\ op_div (mkAmount cMinValue cMinOffset) den
       = if NDEBUG then Ret r else AssertFail.
Proof.
  intros Hc [Hv Hgt].
  assert (He : cMinOffset <= offset den <= cMaxOffset).
  { apply (canonical_nonzero den Hc). unfold cMinValue in Hv; lia. }
  destruct (op_div_window (mkAmount cMinValue cMinOffset) den) as [Hq ->];
    [unfold cMinValue, cMaxValue; simpl; lia | exact Hv |].
  cbn [value offset] in *.
  rewrite canonicalize_wide by exact Hq.
  set (q := cMinValue * 10000000000000000 / value den) in *.
  destruct (Z.leb_spec q cMaxValue) as [Hle | Hbig].
  - exists (mkAmount q (cMinOffset - offset den - 16)); cbn [value offset].
    split; [lia | split; [lia |]].
    unfold assert.
    destruct (Z.leb_spec cMinOffset (cMinOffset - offset den - 16)); [lia |].
    destruct NDEBUG; reflexivity.
  - assert (Hoff : -15 < offset den).
    { destruct Hgt as [H | [_ H]]; [exact H | exfalso].
      assert (q < 10000000000000000); [| unfold cMaxValue in Hbig; lia].
      unfold q. apply Z.div_lt_upper_bound; unfold cMinValue in *; lia. }
    exists (mkAmount (q / 10) (cMinOffset - offset den - 16 + 1));
      cbn [value offset].
    assert (Hq10 : cMinValue <= q / 10 <= cMaxValue).
    { unfold cMinValue, cMaxValue in *.
      assert (q / 10 < 10000000000000000)
        by (apply Z.div_lt_upper_bound; lia).
      split; [apply Z.div_le_lower_bound |]; lia. }
    split; [lia | split; [exact Hq10 |]].
    destruct (Z.leb_spec cMaxOffset (cMinOffset - offset den - 16)); [lia |].
    unfold assert.
    destruct (Z.leb_spec cMinOffset (cMinOffset - offset den - 16 + 1)); [lia |].
    destruct NDEBUG; reflexivity.
Qed.

(** ** Addition of zero *)

(** Adding zero to an amount whose exponent is not negative gives the
    amount back. *)
Lemma op_add_zero_right_whole (a : STAmount) :
  canonical a -> 0 <= offset a -> op_add a zeroAmount = Ret a.
Proof.
  intros Ha He. unfold op_add. rewrite align_spec; cbn [bind].
  unfold aligned, zeroAmount; cbn [fst snd value offset].
  replace (Z.max 0 (0 - offset a)) with 0 by lia.
  rewrite Z.div_1_r, Zdiv_0_l, Z.add_0_r.
  replace (Z.max (offset a) 0) with (offset a) by lia.
  unfold STAmount_new.
  assert (Hu : u64 (value a) = value a).
  { apply u64_small. destruct (canonical_inv a Ha) as [[-> _] | [Hv _]];
      [| unfold cMinValue, cMaxValue in Hv]; lia. }
  rewrite !Hu. destruct a; apply canonicalize_canonical; exact Ha.
Qed.

(** C5: adding zero to a non-zero amount with a negative exponent first
    aligns the amount on the exponent 0 that the zero amount carries: the
    digits after the decimal point are cut from the mantissa before the
    sum is built, so [a + 0] is the whole part of [a]. *)
Theorem op_add_zero_right_truncates (a : STAmount) :
  canonical a -> value a <> 0 -> offset a < 0 ->
  op_add a zeroAmount = STAmount_new (value a / 10 ^ (- offset a)) 0.
Proof.
  intros Ha Hv He. unfold op_add. rewrite align_spec; cbn [bind].
  unfold aligned, zeroAmount; cbn [fst snd value offset].
  replace (Z.max 0 (0 - offset a)) with (- offset a) by lia.
  replace (Z.max (offset a) 0) with 0 by lia.
  rewrite Zdiv_0_l, Z.add_0_r.
  destruct (canonical_nonzero a Ha Hv) as [Hw _].
  assert (Hp : 0 < 10 ^ (- offset a)) by (apply Z.pow_pos_nonneg; lia).
  assert (Hd : 0 <= value a / 10 ^ (- offset a) <= value a).
  { split; [apply Z.div_pos; unfold cMinValue in Hw; lia |].
    apply Z.div_le_upper_bound; [lia |]. unfold cMinValue in Hw; nia. }
  unfold STAmount_new. rewrite !u64_small; [reflexivity | |];
    unfold cMinValue, cMaxValue in Hw; try rewrite u64_small; lia.
Qed.

(** ** Settlement: the partial fill *)

(** Two non-zero amounts ordered by (exponent, mantissa) pass the guard
    of [operator-]. *)
Lemma aligned_guard (o r : STAmount) :
  cMinValue <= value o ->
  0 <= value r <= cMaxValue ->
  offset r < offset o \/ (offset r = offset o /\ value r <= value o) ->
  value (snd (aligned o r)) <= value (fst (aligned o r)).
Proof.
  intros Ho Hr Hlex. unfold aligned; cbn [fst snd value].
  unfold cMinValue, cMaxValue in *.
  destruct Hlex as [Hlt | [Heq Hle]].
  - replace (Z.max 0 (offset r - offset o)) with 0 by lia.
    replace (Z.max 0 (offset o - offset r))
      with (Z.succ (offset o - offset r - 1)) by lia.
    rewrite Z.pow_succ_r by lia.
    assert (Hp : 0 < 10 ^ (offset o - offset r - 1))
      by (apply Z.pow_pos_nonneg; lia).
    rewrite Z.div_1_r.
    apply Z.div_le_upper_bound; nia.
  - replace (Z.max 0 (offset r - offset o)) with 0 by lia.
    replace (Z.max 0 (offset o - offset r)) with 0 by lia.
    rewrite !Z.div_1_r. exact Hle.
Qed.

Lemma op_ge_false_inv (p i : STAmount) :
  value p <> 0 -> op_ge p i = false ->
  offset p < offset i \/ (offset p = offset i /\ value p < value i).
Proof.
  intros Hp. unfold op_ge. apply Z.eqb_neq in Hp. rewrite Hp.
  cmp_cases; intros Hfalse; try discriminate; lia.
Qed.

(** What is received in a partial fill is a non-zero mantissa in range
    that comes before the offered amount in the order on (exponent,
    mantissa). *)
Lemma received_below_offer (p o i prod ret : STAmount) :
  cMinValue <= value p <= cMaxValue ->
  cMinValue <= value o <= cMaxValue ->
  cMinValue <= value i <= cMaxValue ->
  op_ge p i = false ->
  op_mul p o = Ret prod ->
  op_div prod i = Ret ret ->
  cMinValue <= value ret <= cMaxValue
  /\ (offset ret < offset o \/ (offset ret = offset o /\ value ret <= value o)).
Proof.
  intros Hp Ho Hi Hge Hmul Hdiv.
  assert (Hlt : offset p < offset i \/ (offset p = offset i /\ value p < value i))
    by (apply op_ge_false_inv; [unfold cMinValue in Hp; lia | exact Hge]).
  destruct (op_mul_window p o Hp Ho) as [Hm Em]. rewrite Em in Hmul.
  set (m := value p * value o / 1000000000000000) in *.
  assert (Fm : 1000000000000000 * m <= value p * value o)
    by (apply Z.mul_div_le; lia).
  assert (Fm10 : 10 * (m / 10) <= m) by (apply Z.mul_div_le; lia).
  assert (Hprod : cMinValue <= value prod <= cMaxValue).
  { destruct (canonicalize_wide_inv _ _ _ Hm Hmul) as [[H ->] | [H ->]];
      cbn [value]; unfold cMinValue, cMaxValue in *; [lia |].
    assert (m / 10 < 10000000000000000) by (apply Z.div_lt_upper_bound; lia).
    split; [apply Z.div_le_lower_bound |]; lia. }
  destruct (op_div_window prod i Hprod Hi) as [Hq Eq]. rewrite Eq in Hdiv.
  set (q := value prod * 10000000000000000 / value i) in *.
  assert (Fq : value i * q <= value prod * 10000000000000000)
    by (apply Z.mul_div_le; unfold cMinValue in Hi; lia).
  assert (Fq10 : 10 * (q / 10) <= q) by (apply Z.mul_div_le; lia).
  assert (Hq10 : cMaxValue < q -> cMinValue <= q / 10 <= cMaxValue).
  { intros H. unfold cMinValue, cMaxValue in *.
    assert (q / 10 < 10000000000000000) by (apply Z.div_lt_upper_bound; lia).
    split; [apply Z.div_le_lower_bound |]; lia. }
  unfold cMinValue, cMaxValue in *.
  destruct (canonicalize_wide_inv _ _ _ Hm Hmul) as [[Hmle Eprod] | [Hmgt Eprod]];
    destruct (canonicalize_wide_inv _ _ _ Hq Hdiv) as [[Hqle ->] | [Hqgt ->]];
    rewrite Eprod in *; cbn [value offset] in *;
    clear Em Eq Hmul Hdiv; clearbody m q;
    unfold cMinValue, cMaxValue in *.
  - (* neither result rescaled *)
    split; [lia | left; lia].
  - (* quotient rescaled *)
    split; [apply Hq10; lia |].
    destruct Hlt as [Hlt | [Heq Hlt]]; [left; lia | right].
    split; [lia |].
    assert (q < 10 * value o); [nia |].
    assert (q / 10 < value o) by (apply Z.div_lt_upper_bound; lia). lia.
  - (* product rescaled *)
    split; [lia |].
    destruct Hlt as [Hlt | [Heq Hlt]]; [left; lia | right].
    split; [lia |]. nia.
  - (* both rescaled *)
    split; [apply Hq10; lia |].
    assert (Hqo : value i * q <= value p * value o) by nia.
    destruct Hlt as [Hlt | [Heq Hlt]].
    + destruct (Z.eq_dec (offset p) (offset i - 1)) as [E1 | E1];
        [right | left; lia].
      split; [lia |].
      assert (q < 10 * value o); [nia |].
      assert (q / 10 < value o) by (apply Z.div_lt_upper_bound; lia). lia.
    + exfalso. nia.
Qed.

Lemma aligned_bounds (v1 v2 : STAmount) :
  0 <= value v1 -> 0 <= value v2 ->
  0 <= value (fst (aligned v1 v2)) <= value v1
  /\ 0 <= value (snd (aligned v1 v2)) <= value v2.
Proof.
  intros H1 H2. unfold aligned; cbn [fst snd value].
  assert (Hcut : forall v k, 0 <= v -> 0 <= v / 10 ^ Z.max 0 k <= v).
  { intros v k Hv.
    assert (Hp : 0 < 10 ^ Z.max 0 k) by (apply Z.pow_pos_nonneg; lia).
    split; [apply Z.div_pos; lia | apply Z.div_le_upper_bound; nia]. }
  split; apply Hcut; assumption.
Qed.

(** The first loop of [canonicalize] leaves through "value overflow" or
    with a mantissa in range. *)
Lemma grow_outcomes (fuel : nat) :
  forall a : STAmount,
    0 < value a <= cMaxValue ->
    match while fuel grow_cond grow_body a with
    | Ret r => cMinValue <= value r <= cMaxValue
    | Throw e => e = value_overflow
    | AssertFail => False
    | OutOfFuel => True
    end.
Proof.
  induction fuel as [| fuel IH]; intros a Ha; simpl;
    unfold grow_cond at 1; destruct (Z.ltb_spec (value a) cMinValue) as [Hlt | Hge];
    try exact I; try lia.
  unfold grow_body at 1.
  destruct (offset a <=? cMinOffset); cbn [bind]; [reflexivity |].
  apply IH; cbn [value]. unfold cMinValue, cMaxValue in *.
  rewrite u64_small; lia.
Qed.

(** Building an amount from a mantissa that is not above [cMaxValue]
    never throws "value underflow". *)
Lemma canonicalize_small_no_underflow (a : STAmount) :
  0 <= value a <= cMaxValue -> canonicalize a <> Throw value_underflow.
Proof.
  intros Ha. unfold canonicalize.
  destruct (Z.eqb_spec (value a) 0) as [E | E]; [discriminate |].
  pose proof (grow_outcomes canon_fuel a) as Hg.
  destruct (while canon_fuel grow_cond grow_body a) as [r | e | |];
    cbn [bind]; try discriminate.
  - rewrite while_exit
      by (unfold shrink_cond; apply Z.ltb_ge; apply Hg; lia).
    cbn [bind]. unfold assert.
    destruct (NDEBUG || _); cbn [bind]; [| discriminate].
    destruct (NDEBUG || _); cbn [bind]; discriminate.
  - rewrite Hg by lia. discriminate.
Qed.

(** C10: in the partial fill of canonical non-zero amounts, what is
    received, [(paid * offerOut) / offerIn], does not exceed [offerOut]:
    the guard of the subtraction [offerOut -= received] is passed, and the
    subtraction does not throw "value underflow". *)
Theorem partial_fill_subtraction_safe (st : offer_state) (prod ret : STAmount) :
  canonical (paid st) -> canonical (offerOut st) -> canonical (offerIn st) ->
  value (paid st) <> 0 -> value (offerOut st) <> 0 -> value (offerIn st) <> 0 ->
  op_ge (paid st) (offerIn st) = false ->
  op_mul (paid st) (offerOut st) = Ret prod ->
  op_div prod (offerIn st) = Ret ret ->
  op_gt ret (offerOut st) = false
  /\ op_le ret (offerOut st) = true
  /\ (exists al : STAmount * STAmount,
        align (offerOut st) ret = Ret al
        /\ (value (fst al) <? value (snd al)) = false)
  /\ op_sub (offerOut st) ret <> Throw value_underflow.
Proof.
  intros Cp Co Ci Np No Ni Hge Hmul Hdiv.
  destruct (canonical_nonzero _ Cp Np) as [Wp _].
  destruct (canonical_nonzero _ Co No) as [Wo _].
  destruct (canonical_nonzero _ Ci Ni) as [Wi _].
  destruct (received_below_offer _ _ _ _ _ Wp Wo Wi Hge Hmul Hdiv) as [Wr Hlex].
  assert (Hguard : value (snd (aligned (offerOut st) ret))
                   <= value (fst (aligned (offerOut st) ret))).
  { apply aligned_guard; [lia | unfold cMinValue in Wr; lia | exact Hlex]. }
  split; [| split; [| split]].
  - unfold op_gt. unfold cMinValue, cMaxValue in *.
    destruct (Z.eqb_spec (value ret) 0) as [E | _]; [lia |].
    cmp_cases; try reflexivity; lia.
  - unfold op_le. unfold cMinValue, cMaxValue in *.
    destruct (Z.eqb_spec (value ret) 0) as [E | _]; [lia |].
    cmp_cases; try reflexivity; lia.
  - exists (aligned (offerOut st) ret). split; [apply align_spec |].
    apply Z.ltb_ge. exact Hguard.
  - rewrite op_sub_guard_passed by exact Hguard.
    unfold STAmount_new. apply canonicalize_small_no_underflow.
    cbn [value].
    destruct (aligned_bounds (offerOut st) ret) as [[Hf0 Hf1] [Hs0 Hs1]];
      [unfold cMinValue in *; lia .. |].
    unfold cMinValue, cMaxValue in *.
    rewrite !u64_small; try rewrite u64_small; lia.
Qed.

(** ** Settlement: the worked partial fill *)

Lemma canonical_intro (v e : Z) :
  cMinValue <= v <= cMaxValue -> cMinOffset <= e <= cMaxOffset ->
  canonical (mkAmount v e).
Proof.
  intros Hv He. unfold canonical, is_canonical; cbn [value offset].
  apply orb_true_iff; right.
  rewrite !andb_true_iff, !Z.leb_le. lia.
Qed.

Section Example.

Hypothesis min_offset_low : cMinOffset <= -14.
Hypothesis max_offset_high : -12 <= cMaxOffset.

Lemma STAmount_new_small (j : nat) (v : Z) (r : STAmount) :
  (j <= canon_fuel)%nat ->
  0 < v < 2 ^ 64 ->
  cMinValue <= value r <= cMaxValue ->
  -14 <= offset r <= -12 ->
  mkAmount (v * 10 ^ Z.of_nat j) (0 - Z.of_nat j) = r ->
  STAmount_new v 0 = Ret r.
Proof.
  intros Hj Hv Hw He <-. cbn [value offset] in *.
  unfold STAmount_new. rewrite u64_small by lia.
  apply canonicalize_grow; (assumption || lia).
Qed.

Ltac closed_side :=
  first [ reflexivity
        | unfold canon_fuel, cMinValue, cMaxValue; simpl; lia ].

Lemma construct_10 : STAmount_new 10 0 = Ret amount_10.
Proof. apply (STAmount_new_small 14); closed_side. Qed.

Lemma construct_20 : STAmount_new 20 0 = Ret amount_20.
Proof. apply (STAmount_new_small 14); closed_side. Qed.

Lemma construct_40 : STAmount_new 40 0 = Ret amount_40.
Proof. apply (STAmount_new_small 14); closed_side. Qed.

Lemma construct_50 : STAmount_new 50 0 = Ret amount_50.
Proof. apply (STAmount_new_small 14); closed_side. Qed.

Lemma construct_80 : STAmount_new 80 0 = Ret amount_80.
Proof. apply (STAmount_new_small 14); closed_side. Qed.

Lemma construct_100 : STAmount_new 100 0 = Ret amount_100.
Proof. apply (STAmount_new_small 13); closed_side. Qed.

Lemma mul_10_100 : op_mul amount_10 amount_100 = Ret amount_1000.
Proof.
  destruct (op_mul_window amount_10 amount_100) as [_ ->];
    [closed_side .. |].
  apply canonicalize_canonical, canonical_intro;
    [closed_side | simpl; lia].
Qed.

Lemma div_1000_50 : op_div amount_1000 amount_50 = Ret amount_20.
Proof.
  destruct (op_div_window amount_1000 amount_50) as [_ ->];
    [closed_side .. |].
  apply canonicalize_canonical, canonical_intro;
    [closed_side | simpl; lia].
Qed.

Lemma sub_100_20 : op_sub amount_100 amount_20 = Ret amount_80.
Proof.
  rewrite op_sub_guard_passed by (vm_compute; discriminate).
  unfold STAmount_new.
  change (canonicalize (mkAmount 800000000000000 (-13)) = Ret amount_80).
  apply (canonicalize_grow 1 800000000000000 (-13));
    [closed_side | lia | closed_side | simpl; lia].
Qed.

Lemma sub_50_10 : op_sub amount_50 amount_10 = Ret amount_40.
Proof.
  rewrite op_sub_guard_passed by (vm_compute; discriminate).
  unfold STAmount_new.
  change (canonicalize amount_40 = Ret amount_40).
  apply canonicalize_canonical, canonical_intro;
    [closed_side | simpl; lia].
Qed.

(** C8: with the offer 100 for 50 and a payment of 10, all built from
    these integers, [getClaimed] returns 20 and leaves 80 for 40, the
    payment still 10. *)
Theorem getClaimed_partial_fill_example :
  STAmount_new 100 0 = Ret amount_100
  /\ STAmount_new 50 0 = Ret amount_50
  /\ STAmount_new 10 0 = Ret amount_10
  /\ STAmount_new 20 0 = Ret amount_20
  /\ STAmount_new 80 0 = Ret amount_80
  /\ STAmount_new 40 0 = Ret amount_40
  /\ getClaimed (mkState amount_100 amount_50 amount_10)
     = Ret (amount_20, mkState amount_80 amount_40 amount_10).
Proof.
  repeat (split; [first [ exact construct_100 | exact construct_50
                        | exact construct_10 | exact construct_20
                        | exact construct_80 | exact construct_40 ] |]).
  unfold getClaimed; cbn [paid offerIn offerOut].
  change (value amount_10 =? 0) with false.
  change ((value amount_50 =? 0) || (value amount_100 =? 0)) with false.
  change (op_ge amount_10 amount_50) with false.
  cbv iota.
  rewrite mul_10_100; cbn [bind].
  rewrite div_1000_50; cbn [bind].
  rewrite sub_100_20; cbn [bind].
  rewrite sub_50_10; cbn [bind].
  reflexivity.
Qed.

End Example.

(** ** The fuel of [canonicalize] is enough *)

Lemma grow_terminates (fuel : nat) :
  forall a : STAmount,
    0 < value a < 2 ^ 64 ->
    cMinValue <= value a * 10 ^ Z.of_nat fuel ->
    match while fuel grow_cond grow_body a with
    | Ret r => 0 < value r < 2 ^ 64
    | Throw e => e = value_overflow
    | AssertFail | OutOfFuel => False
    end.
Proof.
  induction fuel as [| fuel IH]; intros a Ha Hf; simpl;
    unfold grow_cond at 1;
    destruct (Z.ltb_spec (value a) cMinValue) as [Hlt | Hge]; try exact Ha.
  - change (10 ^ Z.of_nat 0) with 1 in Hf. lia.
  - unfold grow_body at 1.
    destruct (offset a <=? cMinOffset); cbn [bind]; [reflexivity |].
    assert (Hu : u64 (value a * 10) = value a * 10)
      by (apply u64_small; unfold cMinValue in Hlt; lia).
    apply IH; cbn [value]; rewrite Hu.
    + unfold cMinValue in Hlt; lia.
    + rewrite Nat2Z.inj_succ, Z.pow_succ_r in Hf by lia. lia.
Qed.

Lemma shrink_terminates (fuel : nat) :
  forall a : STAmount,
    0 <= value a <= cMaxValue * 10 ^ Z.of_nat fuel ->
    match while fuel shrink_cond shrink_body a with
    | Ret r => True
    | Throw e => e = value_underflow
    | AssertFail | OutOfFuel => False
    end.
Proof.
  induction fuel as [| fuel IH]; intros a Ha; simpl;
    unfold shrink_cond at 1;
    destruct (Z.ltb_spec cMaxValue (value a)) as [Hlt | Hge]; try exact I.
  - change (10 ^ Z.of_nat 0) with 1 in Ha. lia.
  - unfold shrink_body at 1.
    destruct (cMaxOffset <=? offset a); cbn [bind]; [reflexivity |].
    apply IH; cbn [value].
    rewrite Nat2Z.inj_succ, Z.pow_succ_r in Ha by lia.
    split; [apply Z.div_pos; lia | apply Z.div_le_upper_bound; lia].
Qed.

(** On a 64-bit mantissa neither loop of [canonicalize] outlasts its
    fuel: the call returns, throws or stops on an assertion. *)
Lemma canonicalize_terminates (a : STAmount) :
  0 <= value a < 2 ^ 64 -> canonicalize a <> OutOfFuel.
Proof.
  intros Ha. unfold canonicalize.
  destruct (Z.eqb_spec (value a) 0) as [E | E]; [discriminate |].
  pose proof (grow_terminates canon_fuel a) as Hg.
  destruct (while canon_fuel grow_cond grow_body a) as [r | e | |];
    cbn [bind]; try discriminate.
  - assert (Hr : 0 < value r < 2 ^ 64).
    { apply Hg; [lia |]. unfold cMinValue, canon_fuel. simpl Z.of_nat. lia. }
    pose proof (shrink_terminates canon_fuel r) as Hs.
    destruct (while canon_fuel shrink_cond shrink_body r) as [r' | e | |];
      cbn [bind]; try discriminate.
    + unfold assert.
      destruct (NDEBUG || _); cbn [bind]; [| discriminate].
      destruct (NDEBUG || _); cbn [bind]; discriminate.
    + exfalso. apply Hs. unfold cMaxValue, canon_fuel. simpl Z.of_nat. lia.
  - exfalso. apply Hg; [lia |]. unfold cMinValue, canon_fuel. simpl Z.of_nat. lia.
Qed.

(** ** What [canonicalize] returns *)

(** The first loop: [k] digits gained, exactly. *)
Lemma grow_spec (fuel : nat) :
  forall a : STAmount,
    0 < value a < 2 ^ 64 ->
    match while fuel grow_cond grow_body a with
    | Ret r =>
        exists k : Z,
          0 <= k /\ offset r = offset a - k /\ value r = value a * 10 ^ k
          /\ cMinValue <= value r < 2 ^ 64
          /\ (0 < k -> value r <= cMaxValue /\ cMinOffset <= offset r)
    | Throw e => e = value_overflow
    | AssertFail => False
    | OutOfFuel => True
    end.
Proof.
  induction fuel as [| fuel IH]; intros a Ha; simpl;
    unfold grow_cond at 1;
    destruct (Z.ltb_spec (value a) cMinValue) as [Hlt | Hge]; try exact I;
    try (exists 0; rewrite Z.mul_1_r, Z.sub_0_r; repeat split; lia).
  unfold grow_body at 1.
  destruct (Z.leb_spec (offset a) cMinOffset) as [Hoff | Hoff]; cbn [bind];
    [reflexivity |].
  assert (Hu : u64 (value a * 10) = value a * 10)
    by (apply u64_small; unfold cMinValue in Hlt; lia).
  rewrite Hu.
  specialize (IH (mkAmount (value a * 10) (offset a - 1))).
  cbn [value offset] in IH.
  destruct (while fuel grow_cond grow_body _) as [r | e | |]; try exact I.
  - destruct IH as (k & Hk & Ho & Hv & Hw & Hpos);
      [unfold cMinValue in Hlt; lia |].
    exists (Z.succ k). rewrite Z.pow_succ_r by lia.
    repeat split; try lia.
    destruct (Z.eq_dec k 0) as [-> | Hk0]; [| apply Hpos; lia].
    rewrite Z.mul_1_r in Hv. unfold cMinValue, cMaxValue in *. lia.
  - apply IH. unfold cMinValue in Hlt; lia.
  - apply IH. unfold cMinValue in Hlt; lia.
Qed.

(** The second loop: [k] digits cut off. *)
Lemma shrink_spec (fuel : nat) :
  forall a : STAmount,
    cMinValue <= value a ->
    match while fuel shrink_cond shrink_body a with
    | Ret r =>
        exists k : Z,
          0 <= k /\ offset r = offset a + k /\ value r = value a / 10 ^ k
          /\ cMinValue <= value r <= cMaxValue
          /\ (0 < k -> offset r <= cMaxOffset)
    | Throw e => e = value_underflow
    | AssertFail => False
    | OutOfFuel => True
    end.
Proof.
  induction fuel as [| fuel IH]; intros a Ha; simpl;
    unfold shrink_cond at 1;
    destruct (Z.ltb_spec cMaxValue (value a)) as [Hlt | Hge]; try exact I;
    try (exists 0; rewrite Z.div_1_r, Z.add_0_r; repeat split; lia).
  unfold shrink_body at 1.
  destruct (Z.leb_spec cMaxOffset (offset a)) as [Hoff | Hoff]; cbn [bind];
    [reflexivity |].
  specialize (IH (mkAmount (value a / 10) (offset a + 1))).
  cbn [value offset] in IH.
  assert (Hq : cMinValue <= value a / 10)
    by (unfold cMinValue, cMaxValue in *; apply Z.div_le_lower_bound; lia).
  destruct (while fuel shrink_cond shrink_body _) as [r | e | |]; try exact I.
  - destruct (IH Hq) as (k & Hk & Ho & Hv & Hw & Hpos).
    exists (Z.succ k). rewrite Z.pow_succ_r by lia.
    rewrite <- Z.div_div by (try apply Z.pow_pos_nonneg; lia).
    repeat split; lia.
  - apply IH; exact Hq.
  - apply IH; exact Hq.
Qed.

(** What a caller learns when [canonicalize] returns on a non-zero
    64-bit mantissa. *)
Lemma canonicalize_inv (a r : STAmount) :
  0 < value a < 2 ^ 64 ->
  canonicalize a = Ret r ->
  cMinValue <= value r <= cMaxValue
  /\ assert ((cMinOffset <=? offset r) && (offset r <=? cMaxOffset)) = Ret tt
  /\ ((offset r <= offset a /\ value r = value a * 10 ^ (offset a - offset r))
      \/ (offset a < offset r /\ value r = value a / 10 ^ (offset r - offset a)))
  /\ (offset r < offset a -> cMinOffset <= offset r)
  /\ (offset a < offset r -> offset r <= cMaxOffset).
Proof.
  intros Ha. unfold canonicalize.
  destruct (Z.eqb_spec (value a) 0) as [E | _]; [lia |].
  pose proof (grow_spec canon_fuel a Ha) as Hg.
  destruct (while canon_fuel grow_cond grow_body a) as [r1 | e | |];
    cbn [bind]; try discriminate.
  destruct Hg as (k & Hk & Ho & Hv & Hw & Hpos).
  pose proof (shrink_spec canon_fuel r1) as Hs.
  destruct (while canon_fuel shrink_cond shrink_body r1) as [r2 | e | |];
    cbn [bind]; try discriminate.
  destruct Hs as (k2 & Hk2 & Ho2 & Hv2 & Hw2 & Hpos2); [lia |].
  unfold assert at 1. destruct (NDEBUG || _); cbn [bind]; [| discriminate].
  destruct (assert ((cMinOffset <=? offset r2) && (offset r2 <=? cMaxOffset)))
    as [[] | | |] eqn:Hassert; cbn [bind]; try discriminate.
  intros [= <-].
  split; [exact Hw2 | split; [exact Hassert |]].
  destruct (Z.eq_dec k 0) as [Ek | Ek].
  - (* no digit gained *)
    subst k. rewrite Z.mul_1_r, Z.sub_0_r in *. rewrite Ho, Hv in *.
    destruct (Z.eq_dec k2 0) as [-> | Ek2].
    + rewrite Z.div_1_r, Z.add_0_r in *. rewrite Ho2, Hv2.
      rewrite Z.sub_diag, Z.mul_1_r. split; [left; lia | lia].
    + split; [right | split; [lia | intros _; apply Hpos2; lia]].
      split; [lia |]. rewrite Hv2. do 2 f_equal. lia.
  - (* digits gained: the second loop does not run *)
    destruct (Hpos ltac:(lia)) as [Hmax Hmin].
    assert (Ek2 : k2 = 0).
    { destruct (Z.eq_dec k2 0) as [E0 | E0]; [exact E0 | exfalso].
      assert (Hp : 10 <= 10 ^ k2).
      { replace k2 with (Z.succ (k2 - 1)) by lia.
        rewrite Z.pow_succ_r by lia.
        assert (0 < 10 ^ (k2 - 1)) by (apply Z.pow_pos_nonneg; lia). lia. }
      assert (value r1 / 10 ^ k2 < cMinValue); [| lia].
      apply Z.div_lt_upper_bound; unfold cMinValue, cMaxValue in *; nia. }
    subst k2. rewrite Z.div_1_r, Z.add_0_r in *. rewrite Ho2, Hv2.
    split; [left; split; [lia |] | split; [lia | lia]].
    rewrite Hv. do 2 f_equal. lia.
Qed.

Lemma canonicalize_zero (a : STAmount) :
  value a = 0 -> canonicalize a = Ret zeroAmount.
Proof. intros E. unfold canonicalize. rewrite E. reflexivity. Qed.

(** A start exponent inside the range never leaves it. *)
Lemma canonicalize_in_range (a r : STAmount) :
  0 <= value a < 2 ^ 64 ->
  cMinOffset <= offset a <= cMaxOffset ->
  canonicalize a = Ret r ->
  canonical r.
Proof.
  intros Hv He Hr. destruct (Z.eq_dec (value a) 0) as [E | E].
  - rewrite (canonicalize_zero a E) in Hr. injection Hr as <-. reflexivity.
  - destruct (canonicalize_inv a r ltac:(lia) Hr) as (Hw & _ & _ & Hlo & Hhi).
    destruct r as [v e]; cbn [value offset] in *.
    apply canonical_intro; lia.
Qed.

(** [canonicalize] is idempotent: canonicalizing what it returned returns
    the same amount, in either build and whatever the exponent. *)
Theorem canonicalize_idempotent (a r : STAmount) :
  0 <= value a < 2 ^ 64 ->
  canonicalize a = Ret r ->
  canonicalize r = Ret r.
Proof.
  intros Hv Hr. destruct (Z.eq_dec (value a) 0) as [E | E].
  - rewrite (canonicalize_zero a E) in Hr. injection Hr as <-. reflexivity.
  - destruct (canonicalize_inv a r ltac:(lia) Hr) as (Hw & Hassert & _).
    rewrite canonicalize_window by exact Hw.
    rewrite Hassert. reflexivity.
Qed.

(** [canonicalize] keeps the number: scaling the mantissa up is exact,
    scaling it down drops the last digits (no rounding). *)
Theorem canonicalize_value (a r : STAmount) :
  0 < value a < 2 ^ 64 ->
  canonicalize a = Ret r ->
  (offset r <= offset a /\ value r = value a * 10 ^ (offset a - offset r))
  \/ (offset a < offset r /\ value r = value a / 10 ^ (offset r - offset a)).
Proof.
  intros Hv Hr.
  destruct (canonicalize_inv a r Hv Hr) as (_ & _ & Hval & _). exact Hval.
Qed.



(** ** The wire codec, read backwards *)

Lemma word_fields (w : Z) :
  0 <= w < 2 ^ 64 ->
  0 <= Z.land w (Z.ones 56) < 2 ^ 56
  /\ 0 <= Z.shiftr w (64 - 8) <= 255
  /\ w = Z.land w (Z.ones 56) + Z.shiftr w (64 - 8) * 2 ^ 56.
Proof.
  intros Hw. change (64 - 8) with 56.
  rewrite Z.land_ones, Z.shiftr_div_pow2 by lia.
  pose proof (Z.mod_pos_bound w (2 ^ 56) ltac:(lia)) as Hm.
  pose proof (Z.div_mod w (2 ^ 56) ltac:(lia)) as Hd.
  assert (0 <= w / 2 ^ 56 <= 255).
  { split; [apply Z.div_pos; lia |].
    assert (w / 2 ^ 56 < 256) by (apply Z.div_lt_upper_bound; lia). lia. }
  lia.
Qed.

(** [construct] is a validator: whatever 64-bit word it accepts decodes
    to a canonical amount, consumes exactly that word, and is the word
    [add] writes for that amount. *)
Theorem construct_accepts_canonical_only
    (w : Z) (rest rest' : SerializerIterator) (a : STAmount) :
  0 <= w < 2 ^ 64 ->
  construct (w :: rest) = Ret (a, rest') ->
  canonical a /\ rest' = rest /\ add a [] = [w].
Proof.
  intros Hw. unfold construct, add, add64. cbn [get64 bind fst snd app].
  rewrite wire_mask.
  destruct (word_fields w Hw) as (Hv & Hk & Hsum).
  set (v := Z.land w (Z.ones 56)) in *.
  set (k := Z.shiftr w (64 - 8)) in *.
  clearbody v k.
  destruct (Z.eqb_spec v 0) as [Ev | Ev].
  - destruct (Z.eqb_spec k 0) as [Ek | Ek]; cbn [negb]; [| discriminate].
    rewrite Ev, Ek.
    pose proof (STAmount_new_canonical zeroAmount eq_refl) as Hz.
    cbn [value offset zeroAmount] in Hz. rewrite Hz. cbn [bind].
    intros [= <- <-].
    split; [reflexivity | split; [reflexivity |]].
    rewrite Hsum, Ev, Ek. reflexivity.
  - destruct ((v <? cMinValue) || (cMaxValue <? v)
              || (k - cBias <? cMinOffset) || (cMaxOffset <? k - cBias))
      eqn:Hchk; [discriminate |].
    rewrite !orb_false_iff, !Z.ltb_ge in Hchk.
    assert (Hc : canonical (mkAmount v (k - cBias)))
      by (apply canonical_intro; lia).
    pose proof (STAmount_new_canonical _ Hc) as Hn.
    cbn [value offset] in Hn. rewrite Hn. cbn [bind].
    intros [= <- <-]. split; [exact Hc | split; [reflexivity |]].
    rewrite wire_word_nonzero; cbn [value offset]; try lia.
    rewrite u64_small by lia. f_equal. lia.
Qed.

(** Two canonical amounts written as the same word are the same amount
    (when the biased exponent fits the eight bits of the word). *)
Theorem wire_word_injective (a b : STAmount) :
  - cBias <= cMinOffset -> cMaxOffset <= 255 - cBias ->
  canonical a -> canonical b ->
  wire_word a = wire_word b -> a = b.
Proof.
  intros Hlo Hhi Ha Hb.
  assert (Hword : forall x, canonical x -> value x <> 0 ->
            0 <= value x < 2 ^ 56 /\ 0 < value x
            /\ 0 <= offset x + cBias <= 255
            /\ wire_word x = value x + (offset x + cBias) * 2 ^ 56).
  { intros x Hx Hnz. destruct (canonical_nonzero x Hx Hnz) as [Hv He].
    unfold cMinValue, cMaxValue in Hv.
    assert (0 <= value x < 2 ^ 56) by lia.
    assert (0 <= offset x + cBias <= 255) by (unfold cBias in *; lia).
    repeat split; try lia. apply wire_word_nonzero; assumption. }
  assert (Hzero : forall x, value x = 0 -> wire_word x = 0)
    by (intros x E; unfold wire_word; rewrite E; reflexivity).
  destruct (Z.eq_dec (value a) 0) as [Ea | Ea];
    destruct (Z.eq_dec (value b) 0) as [Eb | Eb].
  - intros _. rewrite (canonical_zero a Ha Ea), (canonical_zero b Hb Eb).
    reflexivity.
  - destruct (Hword b Hb Eb) as (_ & Hp & Hk & ->). rewrite (Hzero a Ea). nia.
  - destruct (Hword a Ha Ea) as (_ & Hp & Hk & ->). rewrite (Hzero b Eb). nia.
  - destruct (Hword a Ha Ea) as (Hva & _ & _ & ->).
    destruct (Hword b Hb Eb) as (Hvb & _ & _ & ->).
    intros Heq.
    destruct (wire_fields (value a) (offset a + cBias) Hva) as [Ka Va].
    destruct (wire_fields (value b) (offset b + cBias) Hvb) as [Kb Vb].
    rewrite Heq in Ka, Va. rewrite Kb in Ka. rewrite Vb in Va.
    destruct a, b; cbn [value offset] in *. f_equal; lia.
Qed.

(** ** The order of non-zero amounts *)

Lemma pow10_ge_10 (d : Z) : 1 <= d -> 10 <= 10 ^ d.
Proof.
  intros Hd. replace d with (Z.succ (d - 1)) by lia.
  rewrite Z.pow_succ_r by lia.
  assert (0 < 10 ^ (d - 1)) by (apply Z.pow_pos_nonneg; lia). lia.
Qed.

(** Mantissas of sixteen digits: the exponent decides, the mantissa
    breaks ties. *)
Lemma scaled_compare (a b : STAmount) (m : Z) :
  cMinValue <= value a <= cMaxValue ->
  cMinValue <= value b <= cMaxValue ->
  m = Z.min (offset a) (offset b) ->
  (offset a < offset b -> scaled m a < scaled m b)
  /\ (offset a = offset b -> scaled m a = value a /\ scaled m b = value b)
  /\ (offset b < offset a -> scaled m b < scaled m a).
Proof.
  intros Ha Hb ->. unfold scaled, cMinValue, cMaxValue in *.
  split; [| split]; intros He; [| split |].
  - replace (Z.min (offset a) (offset b)) with (offset a) by lia.
    rewrite Z.sub_diag, Z.mul_1_r.
    pose proof (pow10_ge_10 (offset b - offset a) ltac:(lia)). nia.
  - replace (Z.min (offset a) (offset b)) with (offset a) by lia.
    rewrite Z.sub_diag. apply Z.mul_1_r.
  - replace (Z.min (offset a) (offset b)) with (offset b) by lia.
    rewrite Z.sub_diag. apply Z.mul_1_r.
  - replace (Z.min (offset a) (offset b)) with (offset b) by lia.
    rewrite Z.sub_diag, Z.mul_1_r.
    pose proof (pow10_ge_10 (offset a - offset b) ltac:(lia)). nia.
Qed.

(** On non-zero canonical amounts the four relational operators compare
    the numbers the amounts stand for. *)
Theorem relational_operators_numeric (a b : STAmount) :
  canonical a -> canonical b -> value a <> 0 -> value b <> 0 ->
  (op_lt a b = true <-> num_lt a b)
  /\ (op_le a b = true <-> num_le a b)
  /\ (op_gt a b = true <-> num_lt b a)
  /\ (op_ge a b = true <-> num_le b a).
Proof.
  intros Ca Cb Na Nb.
  destruct (canonical_nonzero a Ca Na) as [Wa _].
  destruct (canonical_nonzero b Cb Nb) as [Wb _].
  unfold num_lt, num_le. rewrite (Z.min_comm (offset b) (offset a)).
  destruct (scaled_compare a b _ Wa Wb eq_refl) as (Hlt & Heq & Hgt).
  revert Hlt Heq Hgt.
  generalize (scaled (Z.min (offset a) (offset b)) a).
  generalize (scaled (Z.min (offset a) (offset b)) b).
  intros sb sa Hlt Heq Hgt.
  unfold op_lt, op_le, op_gt, op_ge.
  apply Z.eqb_neq in Na. rewrite Na.
  repeat split; cmp_cases; intros; try reflexivity; try discriminate;
    try (destruct Heq; [lia | lia]); lia.
Qed.

(** On non-zero amounts the six comparison operators tell one story:
    [>=] is the negation of [<], [<=] that of [>], [>] is [<] with the
    operands exchanged, [<=] is [<] or [==]; [!=] is the negation of
    [==] on all amounts. *)
Theorem comparison_operators_consistent (a b : STAmount) :
  value a <> 0 -> value b <> 0 ->
  op_ge a b = negb (op_lt a b)
  /\ op_le a b = negb (op_gt a b)
  /\ op_gt a b = op_lt b a
  /\ op_ge a b = op_le b a
  /\ op_le a b = op_lt a b || op_eq a b
  /\ op_ne a b = negb (op_eq a b).
Proof.
  intros Na Nb. unfold op_lt, op_le, op_gt, op_ge, op_eq, op_ne.
  apply Z.eqb_neq in Na, Nb. rewrite Na, Nb.
  repeat split; cmp_cases; simpl; try reflexivity; lia.
Qed.

(** ** Addition and subtraction *)

Lemma op_add_aligned (v1 v2 : STAmount) :
  op_add v1 v2
  = STAmount_new (u64 (value (fst (aligned v1 v2)) + value (snd (aligned v1 v2))))
                 (Z.max (offset v1) (offset v2)).
Proof. unfold op_add. rewrite align_spec. reflexivity. Qed.

(** [operator+] is commutative, on all amounts and in every outcome. *)
Theorem op_add_comm (v1 v2 : STAmount) : op_add v1 v2 = op_add v2 v1.
Proof.
  rewrite !op_add_aligned. unfold aligned; cbn [fst snd value].
  rewrite (Z.max_comm (offset v2) (offset v1)).
  f_equal. f_equal. apply Z.add_comm.
Qed.

(** The aligned mantissas of two non-zero canonical amounts: the one
    with the larger exponent is untouched, so their sum has sixteen or
    seventeen digits. *)
Lemma aligned_sum_window (a b : STAmount) :
  cMinValue <= value a <= cMaxValue ->
  cMinValue <= value b <= cMaxValue ->
  cMinValue <= value (fst (aligned a b)) + value (snd (aligned a b))
  <= 2 * cMaxValue.
Proof.
  intros Ha Hb.
  destruct (aligned_bounds a b) as [[Hf0 Hf1] [Hs0 Hs1]];
    [unfold cMinValue in *; lia .. |].
  split; [| lia].
  unfold aligned in *; cbn [fst snd value] in *.
  destruct (Z.le_ge_cases (offset a) (offset b)) as [Hle | Hge].
  - replace (Z.max 0 (offset a - offset b)) with 0 in * by lia.
    rewrite Z.div_1_r in *. lia.
  - replace (Z.max 0 (offset b - offset a)) with 0 in * by lia.
    rewrite Z.div_1_r in *. lia.
Qed.

(** The sum of two non-zero canonical amounts: the 64-bit addition of
    the aligned mantissas does not wrap, and the call returns a canonical
    amount, unless the sum has seventeen digits at the top exponent,
    where it throws "value underflow". *)
Theorem op_add_canonical_operands (a b : STAmount) :
  canonical a -> canonical b -> value a <> 0 -> value b <> 0 ->
  op_add a b
  = (if value (fst (aligned a b)) + value (snd (aligned a b)) <=? cMaxValue
     then Ret (mkAmount (value (fst (aligned a b)) + value (snd (aligned a b)))
                        (Z.max (offset a) (offset b)))
     else if cMaxOffset <=? Z.max (offset a) (offset b)
          then Throw value_underflow
          else Ret (mkAmount ((value (fst (aligned a b))
                               + value (snd (aligned a b))) / 10)
                             (Z.max (offset a) (offset b) + 1))).
Proof.
  intros Ca Cb Na Nb.
  destruct (canonical_nonzero a Ca Na) as [Wa Ea].
  destruct (canonical_nonzero b Cb Nb) as [Wb Eb].
  pose proof (aligned_sum_window a b Wa Wb) as Hs.
  rewrite op_add_aligned. unfold STAmount_new.
  set (s := value (fst (aligned a b)) + value (snd (aligned a b))) in *.
  clearbody s.
  rewrite !u64_small by (unfold cMinValue, cMaxValue in Hs;
                         try rewrite u64_small; lia).
  rewrite canonicalize_wide by (unfold cMinValue, cMaxValue in *; lia).
  destruct (s <=? cMaxValue).
  - rewrite offsets_assert by lia. reflexivity.
  - destruct (Z.leb_spec cMaxOffset (Z.max (offset a) (offset b)));
      [reflexivity |].
    rewrite offsets_assert by lia. reflexivity.
Qed.

(** [a - a] is zero, for every amount [a]; so [a -= a] leaves zero. *)
Theorem op_sub_self (a : STAmount) :
  op_sub a a = Ret zeroAmount /\ op_sub_assign a a = Ret zeroAmount.
Proof.
  assert (H : op_sub a a = Ret zeroAmount);
    [| split; [exact H | unfold op_sub_assign; rewrite H; reflexivity]].
  assert (Hal : aligned a a = (mkAmount (value a) (offset a),
                               mkAmount (value a) (offset a))).
  { unfold aligned. rewrite Z.sub_diag, !Z.max_id.
    rewrite Z.div_1_r. reflexivity. }
  rewrite op_sub_guard_passed; rewrite Hal; cbn [fst snd value offset];
    [| lia].
  rewrite Z.sub_diag. unfold STAmount_new.
  apply canonicalize_zero. reflexivity.
Qed.

(** The difference of two non-zero canonical amounts, when the call
    returns, is canonical, with or without assertions. *)
Theorem op_sub_returns_canonical (a b r : STAmount) :
  canonical a -> canonical b -> value a <> 0 -> value b <> 0 ->
  op_sub a b = Ret r ->
  canonical r.
Proof.
  intros Ca Cb Na Nb.
  destruct (canonical_nonzero a Ca Na) as [_ Ea].
  destruct (canonical_nonzero b Cb Nb) as [_ Eb].
  unfold op_sub. rewrite align_spec; cbn [bind].
  destruct (value (fst (aligned a b)) <? value (snd (aligned a b)));
    [discriminate |].
  unfold STAmount_new. apply canonicalize_in_range; cbn [value offset].
  - unfold u64. apply Z.mod_pos_bound. lia.
  - unfold aligned; cbn [fst offset]. lia.
Qed.

(** ** Multiplication and division *)

(** [operator*] is commutative, on all amounts and in every outcome. *)
Theorem op_mul_comm (v1 v2 : STAmount) : op_mul v1 v2 = op_mul v2 v1.
Proof.
  unfold op_mul.
  rewrite (orb_comm (value v2 =? 0)), (Z.mul_comm (value v2)).
  replace (offset v2 + offset v1 + 15) with (offset v1 + offset v2 + 15) by lia.
  reflexivity.
Qed.

(** The amount one, (10^15, -15), is neutral for [operator*] on the
    right and for [operator/]: the result is the canonical operand
    itself, whatever the exponent range. *)
Theorem op_mul_div_one (a : STAmount) :
  canonical a ->
  op_mul a amount_1 = Ret a /\ op_div a amount_1 = Ret a.
Proof.
  intros Ca. destruct (Z.eq_dec (value a) 0) as [E | E].
  - rewrite (canonical_zero a Ca E). split; reflexivity.
  - destruct (canonical_nonzero a Ca E) as [Wa Ea].
    assert (W1 : cMinValue <= value amount_1 <= cMaxValue)
      by (unfold cMinValue, cMaxValue; simpl; lia).
    split.
    + destruct (op_mul_window a amount_1 Wa W1) as [_ ->].
      change (value amount_1) with 1000000000000000.
      change (offset amount_1) with (-15).
      rewrite Z.div_mul by lia.
      replace (offset a + -15 + 15) with (offset a) by lia.
      destruct a; apply canonicalize_canonical; exact Ca.
    + destruct (op_div_window a amount_1 Wa W1) as [Hq ->].
      change (value amount_1) with 1000000000000000 in *.
      change (offset amount_1) with (-15).
      assert (Eq : value a * 10000000000000000 / 1000000000000000
                   = value a * 10).
      { replace (value a * 10000000000000000)
          with (value a * 10 * 1000000000000000) by lia.
        apply Z.div_mul. lia. }
      rewrite Eq in *.
      rewrite canonicalize_wide by exact Hq.
      unfold cMinValue, cMaxValue in *.
      destruct (Z.leb_spec (value a * 10) 9999999999999999); [lia |].
      destruct (Z.leb_spec cMaxOffset (offset a - -15 - 16)); [lia |].
      rewrite Z.div_mul by lia.
      replace (offset a - -15 - 16 + 1) with (offset a) by lia.
      rewrite offsets_assert by lia. destruct a; reflexivity.
Qed.

(** A non-zero canonical amount divided by itself is the amount one,
    (10^15, -15), provided the exponent -15 is in range; so is the rate
    of an offer that asks exactly what it gives. *)
Theorem op_div_self (a : STAmount) :
  cMinOffset <= -15 <= cMaxOffset ->
  canonical a -> value a <> 0 ->
  op_div a a = Ret amount_1 /\ getRate a a = Ret amount_1.
Proof.
  intros Hr Ca Na. unfold getRate.
  destruct (canonical_nonzero a Ca Na) as [Wa Ea].
  assert (H : op_div a a = Ret amount_1); [| split; exact H].
  destruct (op_div_window a a Wa Wa) as [Hq ->].
  assert (Eq : value a * 10000000000000000 / value a = 10000000000000000).
  { rewrite Z.mul_comm. apply Z.div_mul. exact Na. }
  rewrite Eq in *. rewrite canonicalize_wide by exact Hq.
  change (10000000000000000 <=? cMaxValue) with false. cbv iota.
  destruct (Z.leb_spec cMaxOffset (offset a - offset a - 16)); [lia |].
  replace (offset a - offset a - 16 + 1) with (-15) by lia.
  rewrite offsets_assert by lia. reflexivity.
Qed.

(** Zero operands: a zero divisor throws "illegal offer" for every
    dividend, zero included; a zero dividend over a non-zero divisor and
    a product with a zero factor are the zero amount. *)
Theorem zero_operands (a b : STAmount) :
  (value b = 0 -> op_div a b = Throw illegal_offer)
  /\ (value b = 0 -> getRate a b = Throw illegal_offer)
  /\ (value a = 0 -> value b <> 0 -> op_div a b = Ret zeroAmount)
  /\ (value a = 0 \/ value b = 0 -> op_mul a b = Ret zeroAmount).
Proof.
  unfold getRate, op_div, op_mul. repeat split.
  - intros ->. reflexivity.
  - intros ->. reflexivity.
  - intros -> Nb. apply Z.eqb_neq in Nb. rewrite Nb. reflexivity.
  - intros [-> | ->]; [reflexivity |].
    rewrite orb_true_r. reflexivity.
Qed.

(** The largest amount, (10^16 - 1, cMaxOffset), times a canonical
    amount greater than one whose mantissa is not 10^15 throws
    "value underflow". *)
Theorem op_mul_largest_underflows (den : STAmount) :
  canonical den -> cMinValue < value den -> -15 <= offset den ->
  op_mul (mkAmount cMaxValue cMaxOffset) den = Throw value_underflow.
Proof.
  intros Cd Hv He.
  destruct (canonical_nonzero den Cd ltac:(unfold cMinValue in Hv; lia))
    as [Wd Ed].
  destruct (op_mul_window (mkAmount cMaxValue cMaxOffset) den) as [Hm ->];
    [unfold cMinValue, cMaxValue; simpl; lia | exact Wd |].
  cbn [value offset] in *.
  rewrite canonicalize_wide by exact Hm.
  assert (Hbig : cMaxValue < cMaxValue * value den / 1000000000000000).
  { unfold cMinValue, cMaxValue in *.
    assert (10000000000000000 <= 9999999999999999 * value den / 1000000000000000)
      by (apply Z.div_le_lower_bound; lia).
    lia. }
  destruct (Z.leb_spec (cMaxValue * value den / 1000000000000000) cMaxValue);
    [lia |].
  destruct (Z.leb_spec cMaxOffset (cMaxOffset + offset den + 15)); [| lia].
  reflexivity.
Qed.

(** With a power of ten as the factor (mantissa 10^15, exponent above
    -15) the same product throws nothing: the mantissa stays in range and
    the exponent, above [cMaxOffset], is only seen by the closing
    assertion of [canonicalize]. *)
Theorem op_mul_largest_power_of_ten (k : Z) :
  -15 < k ->
  op_mul (mkAmount cMaxValue cMaxOffset) (mkAmount cMinValue k)
  = if NDEBUG then Ret (mkAmount cMaxValue (cMaxOffset + k + 15))
    else AssertFail.
Proof.
  intros Hk.
  destruct (op_mul_window (mkAmount cMaxValue cMaxOffset) (mkAmount cMinValue k))
    as [Hm ->]; [unfold cMinValue, cMaxValue; simpl; lia .. |].
  cbn [value offset] in *.
  change (cMaxValue * cMinValue / 1000000000000000) with cMaxValue in *.
  rewrite canonicalize_wide by exact Hm.
  change (cMaxValue <=? cMaxValue) with true. cbv iota.
  unfold assert.
  destruct (Z.leb_spec (cMaxOffset + k + 15) cMaxOffset); [lia |].
  rewrite andb_false_r. destruct NDEBUG; reflexivity.
Qed.

(** ** Settlement, in every branch *)

Lemma num_le_refl (a : STAmount) : num_le a a.
Proof. unfold num_le. lia. Qed.

Lemma num_le_zero_left (a : STAmount) : 0 <= value a -> num_le zeroAmount a.
Proof.
  intros Ha. unfold num_le, scaled, zeroAmount; cbn [value offset].
  assert (0 <= 10 ^ (offset a - Z.min 0 (offset a)))
    by (apply Z.pow_nonneg; lia).
  nia.
Qed.

Lemma canonical_value_nonneg (a : STAmount) : canonical a -> 0 <= value a.
Proof.
  intros Ha. destruct (canonical_inv a Ha) as [[-> _] | [H _]];
    [| unfold cMinValue in H]; lia.
Qed.

(** Ordered by (exponent, mantissa), ordered as numbers. *)
Lemma lex_num_le (a b : STAmount) :
  cMinValue <= value a <= cMaxValue ->
  cMinValue <= value b <= cMaxValue ->
  offset a < offset b \/ (offset a = offset b /\ value a <= value b) ->
  num_le a b.
Proof.
  intros Wa Wb Hlex. unfold num_le.
  destruct (scaled_compare a b _ Wa Wb eq_refl) as (Hlt & Heq & _).
  destruct Hlex as [H | [H Hv]].
  - specialize (Hlt H). lia.
  - destruct (Heq H) as [-> ->]. exact Hv.
Qed.

Lemma op_ge_true_inv (p i : STAmount) :
  value p <> 0 -> op_ge p i = true ->
  offset i < offset p \/ (offset i = offset p /\ value i <= value p).
Proof.
  intros Hp. unfold op_ge. apply Z.eqb_neq in Hp. rewrite Hp.
  cmp_cases; intros Htrue; try discriminate; lia.
Qed.

(** A payment of nothing changes nothing; after any other call that
    returns, the offer is either dead on both sides (both amounts zero) or
    alive on both sides (both non-zero), never half of each. *)
Theorem getClaimed_offer_dead_or_alive
    (st st' : offer_state) (r : STAmount) :
  getClaimed st = Ret (r, st') ->
  (value (paid st) = 0 -> r = zeroAmount /\ st' = st)
  /\ (value (paid st) <> 0 ->
      (offerOut st' = zeroAmount /\ offerIn st' = zeroAmount)
      \/ (value (offerOut st') <> 0 /\ value (offerIn st') <> 0)).
Proof.
  unfold getClaimed.
  destruct (Z.eqb_spec (value (paid st)) 0) as [Ep | Ep].
  - cbn. intros [= <- <-]. split; [auto | contradiction].
  - intros H. split; [contradiction | intros _]. revert H.
    destruct ((value (offerIn st) =? 0) || (value (offerOut st) =? 0)).
    { cbn. intros [= _ <-]. left; auto. }
    destruct (op_ge (paid st) (offerIn st)).
    { intros [= _ <-]. left; auto. }
    destruct (op_mul (paid st) (offerOut st)) as [prod | | |];
      cbn [bind]; try discriminate.
    destruct (op_div prod (offerIn st)) as [ret | | |];
      cbn [bind]; try discriminate.
    destruct (op_sub (offerOut st) ret) as [o' | | |];
      cbn [bind]; try discriminate.
    destruct (op_sub (offerIn st) (paid st)) as [i' | | |];
      cbn [bind]; try discriminate.
    destruct (Z.eqb_spec (value o') 0) as [Eo | Eo];
      destruct (Z.eqb_spec (value i') 0) as [Ei | Ei]; cbn [orb];
      intros [= _ <-]; cbn [offerOut offerIn]; auto.
Qed.

(** Whatever the branch, canonical amounts in: what is returned is, as a
    number, at most what was offered, and what counts as paid after the
    call is at most what was handed in. *)
Theorem getClaimed_never_exceeds
    (st st' : offer_state) (r : STAmount) :
  canonical (paid st) -> canonical (offerOut st) -> canonical (offerIn st) ->
  getClaimed st = Ret (r, st') ->
  num_le r (offerOut st) /\ num_le (paid st') (paid st).
Proof.
  intros Cp Co Ci.
  pose proof (canonical_value_nonneg _ Cp) as Pp.
  pose proof (canonical_value_nonneg _ Co) as Po.
  unfold getClaimed.
  destruct (Z.eqb_spec (value (paid st)) 0) as [Ep | Ep].
  { cbn. intros [= <- <-].
    split; [apply num_le_zero_left; exact Po | apply num_le_refl]. }
  destruct (Z.eqb_spec (value (offerIn st)) 0) as [Ei | Ei]; cbn [orb].
  { cbn. intros [= <- <-]. cbn [paid].
    split; apply num_le_zero_left; assumption. }
  destruct (Z.eqb_spec (value (offerOut st)) 0) as [Eo | Eo].
  { cbn. intros [= <- <-]. cbn [paid].
    split; apply num_le_zero_left; assumption. }
  destruct (canonical_nonzero _ Cp Ep) as [Wp _].
  destruct (canonical_nonzero _ Co Eo) as [Wo _].
  destruct (canonical_nonzero _ Ci Ei) as [Wi _].
  destruct (op_ge (paid st) (offerIn st)) eqn:Hge.
  { intros [= <- <-]. cbn [paid].
    split; [apply num_le_refl |].
    apply lex_num_le; [exact Wi | exact Wp |].
    apply op_ge_true_inv; assumption. }
  destruct (op_mul (paid st) (offerOut st)) as [prod | | |] eqn:Hmul;
    cbn [bind]; try discriminate.
  destruct (op_div prod (offerIn st)) as [ret | | |] eqn:Hdiv;
    cbn [bind]; try discriminate.
  destruct (received_below_offer _ _ _ _ _ Wp Wo Wi Hge Hmul Hdiv)
    as [Wr Hlex].
  destruct (op_sub (offerOut st) ret) as [o' | | |];
    cbn [bind]; try discriminate.
  destruct (op_sub (offerIn st) (paid st)) as [i' | | |];
    cbn [bind]; try discriminate.
  destruct ((value o' =? 0) || (value i' =? 0));
    intros [= <- <-]; cbn [paid];
    (split; [apply lex_num_le; assumption | apply num_le_refl]).
Qed.

(** ** Whole numbers of at most sixteen digits *)

Section Integers.

(** The exponents -15 .. 0 that whole numbers need are in range. *)
Hypothesis min_offset_15 : cMinOffset <= -15.
Hypothesis max_offset_0 : 0 <= cMaxOffset.

Lemma pow10_split (s t : Z) :
  0 <= s <= t -> 10 ^ t = 10 ^ s * 10 ^ (t - s).
Proof. intros H. rewrite <- Z.pow_add_r by lia. f_equal. lia. Qed.

(** Sixteen digits are reached with one exponent only. *)
Lemma window_exponent (v s t : Z) :
  0 < v -> 0 <= s -> 0 <= t ->
  cMinValue <= v * 10 ^ t <= cMaxValue ->
  cMinValue <= v * 10 ^ s < 10 * cMinValue * 10 ->
  s = t \/ s = t + 1.
Proof.
  intros Hv Hs Ht Wt Ws. unfold cMinValue, cMaxValue in *.
  destruct (Z.lt_trichotomy s t) as [Hlt | [-> | Hgt]]; [exfalso | auto |].
  - rewrite (pow10_split s t) in Wt by lia.
    pose proof (pow10_ge_10 (t - s) ltac:(lia)). nia.
  - destruct (Z.eq_dec s (t + 1)) as [-> | Hne]; [auto | exfalso].
    rewrite (pow10_split t s) in Ws by lia.
    replace (s - t) with (Z.succ (s - t - 1)) in Ws by lia.
    rewrite Z.pow_succ_r in Ws by lia.
    pose proof (pow10_ge_10 (s - t - 1) ltac:(lia)). nia.
Qed.

Lemma integer_digits (n : nat) :
  forall v : Z,
    0 < v <= cMaxValue ->
    cMinValue <= v * 10 ^ Z.of_nat n ->
    exists j : Z,
      0 <= j <= Z.of_nat n /\ cMinValue <= v * 10 ^ j <= cMaxValue.
Proof.
  induction n as [| n IH]; intros v Hv Hn.
  - exists 0. change (10 ^ Z.of_nat 0) with 1 in Hn. rewrite Z.mul_1_r in *. lia.
  - destruct (Z.le_gt_cases cMinValue v) as [Hge | Hlt].
    + exists 0. rewrite Z.mul_1_r. lia.
    + rewrite Nat2Z.inj_succ, Z.pow_succ_r in Hn by lia.
      destruct (IH (v * 10)) as (j & Hj & Hw);
        [unfold cMinValue, cMaxValue in *; lia | lia |].
      exists (Z.succ j). rewrite Z.pow_succ_r by lia.
      split; [lia |]. replace (v * (10 * 10 ^ j)) with (v * 10 * 10 ^ j) by ring.
      exact Hw.
Qed.

Lemma integer_exponent (v : Z) :
  1 <= v <= cMaxValue ->
  exists j : Z, 0 <= j <= 15 /\ cMinValue <= v * 10 ^ j <= cMaxValue.
Proof.
  intros Hv. apply (integer_digits 15 v); [lia |].
  change (10 ^ Z.of_nat 15) with cMinValue. unfold cMinValue. lia.
Qed.

Lemma integer_amount_inv (n : Z) (a : STAmount) :
  1 <= n -> integer_amount n a ->
  exists j : Z,
    0 <= j <= 15 /\ cMinValue <= n * 10 ^ j <= cMaxValue
    /\ a = mkAmount (n * 10 ^ j) (- j).
Proof.
  intros Hn (j & Hj & Hw & ->). exists j. repeat split; try lia.
  destruct (Z.le_gt_cases j 15) as [H | H]; [exact H | exfalso].
  rewrite (pow10_split 15 j) in Hw by lia.
  pose proof (pow10_ge_10 (j - 15) ltac:(lia)).
  change (10 ^ 15) with 1000000000000000 in Hw.
  unfold cMinValue, cMaxValue in *. nia.
Qed.

(** [d] written with [s] zeros, where the canonical amount of [d] has
    [t] zeros: canonicalization appends the missing zeros or drops the
    one too many. *)
Lemma canonicalize_integer (d s t : Z) :
  0 < d -> 0 <= t <= 15 ->
  cMinValue <= d * 10 ^ t <= cMaxValue ->
  0 <= s <= t + 1 ->
  canonicalize (mkAmount (d * 10 ^ s) (- s)) = Ret (mkAmount (d * 10 ^ t) (- t)).
Proof.
  intros Hd Ht Hw Hs. destruct (Z.eq_dec s (t + 1)) as [-> | Hne].
  - replace (t + 1) with (Z.succ t) by lia. rewrite Z.pow_succ_r by lia.
    assert (Hv : d * (10 * 10 ^ t) = d * 10 ^ t * 10) by ring.
    rewrite Hv. rewrite canonicalize_wide
      by (unfold cMinValue, cMaxValue in *; lia).
    destruct (Z.leb_spec (d * 10 ^ t * 10) cMaxValue);
      [unfold cMinValue, cMaxValue in *; lia |].
    destruct (Z.leb_spec cMaxOffset (- Z.succ t)); [lia |].
    rewrite Z.div_mul by lia.
    replace (- Z.succ t + 1) with (- t) by lia.
    rewrite offsets_assert by lia. reflexivity.
  - pose proof (canonicalize_grow (Z.to_nat (t - s)) (d * 10 ^ s) (- s)) as Hg.
    rewrite Z2Nat.id in Hg by lia.
    assert (Hp : 0 < 10 ^ s) by (apply Z.pow_pos_nonneg; lia).
    replace (d * 10 ^ s * 10 ^ (t - s)) with (d * 10 ^ t) in Hg
      by (rewrite (pow10_split s t) by lia; ring).
    replace (- s - (t - s)) with (- t) in Hg by lia.
    apply Hg; [unfold canon_fuel; lia | nia | exact Hw | lia].
Qed.

(** Every integer from 1 to 10^16 - 1 has a canonical amount, and the
    constructor and [operator=(uint64)] build it: no digit is lost. *)
Theorem integer_assignment_exact (x : STAmount) (n : Z) :
  1 <= n <= cMaxValue ->
  exists a : STAmount,
    integer_amount n a /\ canonical a
    /\ STAmount_new n 0 = Ret a /\ op_assign_u64 x n = Ret a.
Proof.
  intros Hn. destruct (integer_exponent n Hn) as (j & Hj & Hw).
  exists (mkAmount (n * 10 ^ j) (- j)).
  assert (Hnew : STAmount_new n 0 = Ret (mkAmount (n * 10 ^ j) (- j))).
  { unfold STAmount_new.
    rewrite u64_small by (unfold cMaxValue in Hn; lia).
    pose proof (canonicalize_integer n 0 j ltac:(lia) Hj Hw ltac:(lia)) as Hc.
    change (10 ^ 0) with 1 in Hc. rewrite Z.mul_1_r in Hc. exact Hc. }
  split; [exists j; repeat split; (lia || reflexivity) |].
  split; [apply canonical_intro; lia |].
  split; [exact Hnew |].
  unfold op_assign_u64. rewrite Hnew. reflexivity.
Qed.

Lemma cut_zeros (m j k : Z) :
  0 <= k <= j -> m * 10 ^ j / 10 ^ k = m * 10 ^ (j - k).
Proof.
  intros H. rewrite (pow10_split (j - k) j) by lia.
  replace (j - (j - k)) with k by lia.
  rewrite Z.mul_assoc. apply Z.div_mul.
  assert (0 < 10 ^ k) by (apply Z.pow_pos_nonneg; lia). lia.
Qed.

Lemma pow10_mono (s t : Z) : 0 <= s <= t -> 0 < 10 ^ s <= 10 ^ t.
Proof.
  intros H. split; [apply Z.pow_pos_nonneg; lia |].
  apply Z.pow_le_mono_r; lia.
Qed.

Lemma op_assign_copy (x r : STAmount) : op_assign x r = r.
Proof. destruct r; reflexivity. Qed.

(** The constructor builds the canonical amount of a whole number. *)
Lemma STAmount_new_integer (n : Z) (b : STAmount) :
  1 <= n -> integer_amount n b -> STAmount_new n 0 = Ret b.
Proof.
  intros Hn Ib. destruct (integer_amount_inv n b Hn Ib) as (i & Hi & Wb & ->).
  assert (Hp : 1 <= 10 ^ i) by (pose proof (pow10_mono 0 i ltac:(lia)); lia).
  unfold STAmount_new.
  rewrite u64_small by (unfold cMaxValue in Wb; nia).
  pose proof (canonicalize_integer n 0 i ltac:(lia) Hi Wb ltac:(lia)) as Hc.
  change (10 ^ 0) with 1 in Hc. rewrite Z.mul_1_r in Hc. exact Hc.
Qed.

(** Two whole numbers are aligned on the shorter run of zeros. *)
Lemma aligned_integers (m n j i : Z) :
  0 <= j -> 0 <= i ->
  aligned (mkAmount (m * 10 ^ j) (- j)) (mkAmount (n * 10 ^ i) (- i))
  = (mkAmount (m * 10 ^ Z.min i j) (- Z.min i j),
     mkAmount (n * 10 ^ Z.min i j) (- Z.min i j)).
Proof.
  intros Hj Hi. unfold aligned; cbn [value offset].
  destruct (Z.le_ge_cases i j) as [Hle | Hge].
  - replace (Z.min i j) with i by lia.
    replace (Z.max 0 (- i - - j)) with (j - i) by lia.
    replace (Z.max 0 (- j - - i)) with 0 by lia.
    replace (Z.max (- j) (- i)) with (- i) by lia.
    rewrite !cut_zeros by lia. repeat f_equal; lia.
  - replace (Z.min i j) with j by lia.
    replace (Z.max 0 (- i - - j)) with 0 by lia.
    replace (Z.max 0 (- j - - i)) with (i - j) by lia.
    replace (Z.max (- j) (- i)) with (- j) by lia.
    rewrite !cut_zeros by lia. repeat f_equal; lia.
Qed.

(** Whole numbers add exactly: the sum of the canonical amounts of [m]
    and [n] is the canonical amount of [m + n], as long as [m + n] has at
    most sixteen digits. *)
Theorem integer_addition_exact (m n : Z) (a b : STAmount) :
  1 <= m -> 1 <= n -> m + n <= cMaxValue ->
  integer_amount m a -> integer_amount n b ->
  exists c : STAmount,
    integer_amount (m + n) c
    /\ op_add a b = Ret c
    /\ op_add_assign_u64 a n = Ret c
    /\ STAmount_new (m + n) 0 = Ret c.
Proof.
  intros Hm Hn Hsum Ia Ib.
  assert (Hu64 : forall c, op_add a b = Ret c -> op_add_assign_u64 a n = Ret c).
  { intros c Hc. unfold op_add_assign_u64, op_add_assign.
    rewrite (STAmount_new_integer n b Hn Ib); cbn [bind].
    rewrite Hc; cbn [bind]. rewrite op_assign_copy. reflexivity. }
  revert Hu64.
  destruct (integer_amount_inv m a Hm Ia) as (j & Hj & Wa & ->).
  destruct (integer_amount_inv n b Hn Ib) as (i & Hi & Wb & ->).
  intros Hu64.
  destruct (integer_exponent (m + n) ltac:(lia)) as (t & Ht & Wt).
  exists (mkAmount ((m + n) * 10 ^ t) (- t)).
  split; [exists t; repeat split; (lia || reflexivity) |].
  assert (Hs : 0 <= Z.min i j <= t + 1
               /\ 0 <= (m + n) * 10 ^ Z.min i j < 2 ^ 64).
  { pose proof (pow10_mono (Z.min i j) j ltac:(lia)) as Pj.
    pose proof (pow10_mono (Z.min i j) i ltac:(lia)) as Pi.
    assert (Hw : cMinValue <= (m + n) * 10 ^ Z.min i j < 10 * cMinValue * 10).
    { assert (0 <= m * 10 ^ Z.min i j <= m * 10 ^ j)
        by (split; [apply Z.mul_nonneg_nonneg
                   | apply Z.mul_le_mono_nonneg_l]; lia).
      assert (0 <= n * 10 ^ Z.min i j <= n * 10 ^ i)
        by (split; [apply Z.mul_nonneg_nonneg
                   | apply Z.mul_le_mono_nonneg_l]; lia).
      rewrite Z.mul_add_distr_r. unfold cMinValue, cMaxValue in *.
      destruct (Z.le_ge_cases i j) as [Hle | Hge].
      - replace (Z.min i j) with i in * by lia. lia.
      - replace (Z.min i j) with j in * by lia. lia. }
    destruct (window_exponent (m + n) (Z.min i j) t) as [E | E];
      try lia; try assumption; unfold cMinValue in Hw; lia. }
  assert (Hadd : op_add (mkAmount (m * 10 ^ j) (- j)) (mkAmount (n * 10 ^ i) (- i))
                 = Ret (mkAmount ((m + n) * 10 ^ t) (- t))).
  { rewrite op_add_aligned, aligned_integers by lia.
    cbn [fst snd value offset].
    replace (Z.max (- j) (- i)) with (- Z.min i j) by lia.
    rewrite <- Z.mul_add_distr_r.
    unfold STAmount_new. rewrite !u64_small by (try rewrite u64_small; lia).
    apply canonicalize_integer; lia. }
  split; [exact Hadd | split; [apply Hu64; exact Hadd |]].
  - unfold STAmount_new. rewrite u64_small by (unfold cMaxValue in *; lia).
    pose proof (canonicalize_integer (m + n) 0 t ltac:(lia) Ht Wt ltac:(lia))
      as Hc.
    change (10 ^ 0) with 1 in Hc. rewrite Z.mul_1_r in Hc. exact Hc.
Qed.

(** The longer number has the shorter run of zeros. *)
Lemma integer_order_exponents (m n j i : Z) :
  1 <= n <= m -> 0 <= j -> 0 <= i ->
  cMinValue <= m * 10 ^ j <= cMaxValue ->
  cMinValue <= n * 10 ^ i <= cMaxValue ->
  j <= i.
Proof.
  intros Hn Hj Hi Wm Wn.
  destruct (Z.le_gt_cases j i) as [H | H]; [exact H | exfalso].
  rewrite (pow10_split i j) in Wm by lia.
  pose proof (pow10_ge_10 (j - i) ltac:(lia)) as P10.
  pose proof (pow10_mono 0 i ltac:(lia)) as [Pi _].
  assert (n * 10 ^ i <= m * 10 ^ i) by (apply Z.mul_le_mono_nonneg_r; lia).
  assert (m * 10 ^ i * 10 <= m * (10 ^ i * 10 ^ (j - i))).
  { rewrite Z.mul_assoc. apply Z.mul_le_mono_nonneg_l; [nia | exact P10]. }
  unfold cMinValue, cMaxValue in *. lia.
Qed.

(** Whole numbers subtract exactly: for [n <= m] the difference of the
    canonical amounts of [m] and [n] is what the constructor builds from
    [m - n], that is the canonical amount of [m - n], or zero. *)
Theorem integer_subtraction_exact (m n : Z) (a b : STAmount) :
  1 <= n <= m -> m <= cMaxValue ->
  integer_amount m a -> integer_amount n b ->
  exists c : STAmount,
    op_sub a b = Ret c
    /\ op_sub_assign_u64 a n = Ret c
    /\ STAmount_new (m - n) 0 = Ret c
    /\ (n < m -> integer_amount (m - n) c)
    /\ (n = m -> c = zeroAmount).
Proof.
  intros Hn Hm Ia Ib.
  assert (Hu64 : forall c, op_sub a b = Ret c -> op_sub_assign_u64 a n = Ret c).
  { intros c Hc. unfold op_sub_assign_u64, op_sub_assign.
    rewrite (STAmount_new_integer n b ltac:(lia) Ib); cbn [bind].
    rewrite Hc; cbn [bind]. rewrite op_assign_copy. reflexivity. }
  revert Hu64.
  destruct (integer_amount_inv m a ltac:(lia) Ia) as (j & Hj & Wa & ->).
  destruct (integer_amount_inv n b ltac:(lia) Ib) as (i & Hi & Wb & ->).
  intros Hu64.
  pose proof (integer_order_exponents m n j i Hn ltac:(lia) ltac:(lia) Wa Wb)
    as Hji.
  pose proof (pow10_mono 0 j ltac:(lia)) as [Pj _].
  assert (Hal : aligned (mkAmount (m * 10 ^ j) (- j)) (mkAmount (n * 10 ^ i) (- i))
                = (mkAmount (m * 10 ^ j) (- j), mkAmount (n * 10 ^ j) (- j))).
  { rewrite aligned_integers by lia. replace (Z.min i j) with j by lia.
    reflexivity. }
  assert (Hle : n * 10 ^ j <= m * 10 ^ j)
    by (apply Z.mul_le_mono_nonneg_r; lia).
  assert (Hn0 : 0 <= n * 10 ^ j) by (apply Z.mul_nonneg_nonneg; lia).
  assert (Hsub : op_sub (mkAmount (m * 10 ^ j) (- j)) (mkAmount (n * 10 ^ i) (- i))
                 = canonicalize (mkAmount ((m - n) * 10 ^ j) (- j))).
  { rewrite op_sub_guard_passed; rewrite Hal; cbn [fst snd value offset];
      [| exact Hle].
    unfold STAmount_new. rewrite <- Z.mul_sub_distr_r.
    unfold cMinValue, cMaxValue in *.
    rewrite !u64_small by (try rewrite u64_small; rewrite Z.mul_sub_distr_r; lia).
    reflexivity. }
  assert (Hgoal : exists c : STAmount,
            canonicalize (mkAmount ((m - n) * 10 ^ j) (- j)) = Ret c
            /\ STAmount_new (m - n) 0 = Ret c
            /\ (n < m -> integer_amount (m - n) c)
            /\ (n = m -> c = zeroAmount));
    [| destruct Hgoal as (c & Hc & Hrest); exists c;
       rewrite <- Hsub in Hc; split; [exact Hc | split; [apply Hu64; exact Hc |]];
       exact Hrest].
  clear Hu64 Hsub. unfold STAmount_new.
  rewrite u64_small by (unfold cMaxValue in *; lia).
  destruct (Z.eq_dec n m) as [E | E].
  - exists zeroAmount. subst n. rewrite Z.sub_diag, Z.mul_0_l.
    repeat split; try reflexivity. lia.
  - destruct (integer_exponent (m - n) ltac:(lia)) as (t & Ht & Wt).
    exists (mkAmount ((m - n) * 10 ^ t) (- t)).
    assert (Hjt : j <= t).
    { destruct (Z.le_gt_cases j t) as [H | H]; [exact H | exfalso].
      pose proof (pow10_ge_10 (j - t) ltac:(lia)) as P10.
      pose proof (pow10_mono 0 t ltac:(lia)) as [Pt _].
      assert ((m - n) * 10 ^ t * 10 <= (m - n) * 10 ^ j).
      { rewrite (pow10_split t j) by lia. rewrite Z.mul_assoc.
        apply Z.mul_le_mono_nonneg_l; [nia | exact P10]. }
      assert ((m - n) * 10 ^ j <= m * 10 ^ j)
        by (apply Z.mul_le_mono_nonneg_r; lia).
      unfold cMinValue, cMaxValue in *. lia. }
    split; [apply canonicalize_integer; lia |].
    split.
    + pose proof (canonicalize_integer (m - n) 0 t ltac:(lia) Ht Wt ltac:(lia))
        as Hc.
      change (10 ^ 0) with 1 in Hc. rewrite Z.mul_1_r in Hc. exact Hc.
    + split; [intros _; exists t; repeat split; (lia || reflexivity) | lia].
Qed.

(** Whole numbers multiply exactly: the product of the canonical amounts
    of [m] and [n] is the canonical amount of [m * n], as long as [m * n]
    has at most sixteen digits. *)
Theorem integer_multiplication_exact (m n : Z) (a b : STAmount) :
  1 <= m -> 1 <= n -> m * n <= cMaxValue ->
  integer_amount m a -> integer_amount n b ->
  exists c : STAmount,
    integer_amount (m * n) c
    /\ op_mul a b = Ret c
    /\ STAmount_new (m * n) 0 = Ret c.
Proof.
  intros Hm Hn Hprod Ia Ib.
  destruct (integer_amount_inv m a Hm Ia) as (j & Hj & Wa & ->).
  destruct (integer_amount_inv n b Hn Ib) as (i & Hi & Wb & ->).
  assert (Hd : 1 <= m * n <= cMaxValue) by nia.
  destruct (integer_exponent (m * n) Hd) as (t & Ht & Wt).
  exists (mkAmount (m * n * 10 ^ t) (- t)).
  split; [exists t; repeat split; (lia || reflexivity) |].
  destruct (op_mul_window (mkAmount (m * 10 ^ j) (- j)) (mkAmount (n * 10 ^ i) (- i)))
    as [Hw Hmul]; [exact Wa | exact Wb |].
  cbn [value offset] in *.
  assert (Hvv : m * 10 ^ j * (n * 10 ^ i) = m * n * 10 ^ (j + i))
    by (rewrite Z.pow_add_r by lia; ring).
  rewrite Hvv in *.
  assert (Hij : 15 <= j + i).
  { destruct (Z.le_gt_cases 15 (j + i)) as [H | H]; [exact H | exfalso].
    assert (m * n * 10 ^ (j + i) / 1000000000000000 < cMinValue);
      [| lia].
    apply Z.div_lt_upper_bound; [lia |].
    pose proof (pow10_mono (j + i) 14 ltac:(lia)) as [P0 P14].
    change (10 ^ 14) with 100000000000000 in P14.
    unfold cMinValue, cMaxValue in *. nia. }
  change 1000000000000000 with (10 ^ 15) in Hw, Hmul.
  rewrite cut_zeros in Hw, Hmul by lia.
  replace (- j + - i + 15) with (- (j + i - 15)) in Hmul by lia.
  assert (Hs : j + i - 15 = t \/ j + i - 15 = t + 1)
    by (apply (window_exponent (m * n)); (lia || assumption)).
  split.
  - rewrite Hmul. apply canonicalize_integer; lia.
  - unfold STAmount_new. rewrite u64_small by (unfold cMaxValue in *; lia).
    pose proof (canonicalize_integer (m * n) 0 t ltac:(lia) Ht Wt ltac:(lia))
      as Hc.
    change (10 ^ 0) with 1 in Hc. rewrite Z.mul_1_r in Hc. exact Hc.
Qed.

(** Whole numbers divide exactly when the division has no remainder:
    the canonical amount of [d * n] over that of [n] is the canonical
    amount of [d]; so is the rate of an offer of [d * n] for [n]. *)
Theorem integer_division_exact (d n : Z) (a b : STAmount) :
  1 <= d -> 1 <= n -> d * n <= cMaxValue ->
  integer_amount (d * n) a -> integer_amount n b ->
  exists c : STAmount,
    integer_amount d c
    /\ op_div a b = Ret c
    /\ getRate a b = Ret c
    /\ STAmount_new d 0 = Ret c.
Proof.
  intros Hd Hn Hprod Ia Ib.
  assert (Hdn : 1 <= d * n) by nia.
  destruct (integer_amount_inv (d * n) a Hdn Ia) as (j & Hj & Wa & ->).
  destruct (integer_amount_inv n b Hn Ib) as (i & Hi & Wb & ->).
  assert (Hd' : 1 <= d <= cMaxValue) by nia.
  destruct (integer_exponent d Hd') as (t & Ht & Wt).
  exists (mkAmount (d * 10 ^ t) (- t)).
  split; [exists t; repeat split; (lia || reflexivity) |].
  destruct (op_div_window (mkAmount (d * n * 10 ^ j) (- j)) (mkAmount (n * 10 ^ i) (- i)))
    as [Hw Hdiv]; [exact Wa | exact Wb |].
  cbn [value offset] in *.
  assert (Hq : d * n * 10 ^ j * 10000000000000000 / (n * 10 ^ i)
               = d * 10 ^ (16 + j - i)).
  { change 10000000000000000 with (10 ^ 16).
    replace (d * n * 10 ^ j * 10 ^ 16)
      with (d * 10 ^ (16 + j - i) * (n * 10 ^ i)).
    - apply Z.div_mul. pose proof (pow10_mono 0 i ltac:(lia)). nia.
    - assert (E : 10 ^ (16 + j - i) * 10 ^ i = 10 ^ j * 10 ^ 16)
        by (rewrite <- !Z.pow_add_r by lia; f_equal; lia).
      transitivity (d * n * (10 ^ (16 + j - i) * 10 ^ i)); [ring |].
      rewrite E. ring. }
  rewrite Hq in *.
  replace (- j - - i - 16) with (- (16 + j - i)) in Hdiv by lia.
  assert (Hs : 16 + j - i = t \/ 16 + j - i = t + 1)
    by (apply (window_exponent d); (lia || assumption)).
  assert (Hres : op_div (mkAmount (d * n * 10 ^ j) (- j)) (mkAmount (n * 10 ^ i) (- i))
                 = Ret (mkAmount (d * 10 ^ t) (- t)))
    by (rewrite Hdiv; apply canonicalize_integer; lia).
  split; [exact Hres | split; [exact Hres |]].
  unfold STAmount_new. rewrite u64_small by (unfold cMaxValue in *; lia).
  pose proof (canonicalize_integer d 0 t ltac:(lia) Ht Wt ltac:(lia)) as Hc.
  change (10 ^ 0) with 1 in Hc. rewrite Z.mul_1_r in Hc. exact Hc.
Qed.

End Integers.

End Amount.

(** * Instances

    The statements above at concrete amounts, with the exponent range
    -96 .. 80 and assertions kept. *)

Lemma codec_round_trip_witness :
  canonical (-96) 80 amount_sample
  /\ construct false (-96) 80 (add amount_sample [] ++ [])
     = Ret (amount_sample, []).
Proof.
  split; [reflexivity |].
  apply (codec_round_trip false (-96) 80 amount_sample []);
    [unfold cBias; lia | unfold cBias; lia | reflexivity].
Defined.

Lemma getClaimed_full_fill_witness :
  op_ge (paid full_state) (offerIn full_state) = true
  /\ getClaimed false (-96) 80 full_state
     = Ret (amount_100, mkState zeroAmount zeroAmount amount_50).
Proof.
  split; [reflexivity |].
  apply (getClaimed_full_fill false (-96) 80 full_state);
    solve [reflexivity | cbv; discriminate].
Defined.

(** C3 as stated fails: the payment of 60 is at least the 50 asked, yet
    the offer has nothing to give and the payment is zeroed instead of
    set to 50; and a payment of nothing is at least the nothing asked,
    yet the 100 offered are neither returned nor taken off the offer. *)
Lemma getClaimed_full_fill_counterexample :
  (canonical (-96) 80 (paid dead_state)
   /\ canonical (-96) 80 (offerIn dead_state)
   /\ canonical (-96) 80 (offerOut dead_state)
   /\ op_ge (paid dead_state) (offerIn dead_state) = true
   /\ getClaimed false (-96) 80 dead_state
      = Ret (zeroAmount, mkState zeroAmount zeroAmount zeroAmount)
   /\ op_eq zeroAmount (offerIn dead_state) = false)
  /\ (op_ge (paid idle_state) (offerIn idle_state) = true
      /\ getClaimed false (-96) 80 idle_state = Ret (zeroAmount, idle_state)
      /\ op_eq (offerOut idle_state) zeroAmount = false
      /\ op_eq zeroAmount (offerOut idle_state) = false).
Proof. repeat split. Qed.

Lemma op_div_smallest_never_overflows_witness :
  exists r : STAmount,
    offset r < -96
    /\ cMinValue <= value r <= cMaxValue
    /\ op_div false (-96) 80 (mkAmount cMinValue (-96)) amount_2
       = if false then Ret r else AssertFail.
Proof.
  apply (op_div_smallest_never_overflows false (-96) 80 amount_2).
  - reflexivity.
  - unfold exceeds_one, cMinValue, cMaxValue; simpl; lia.
Defined.

(** The same division in the two builds. *)
Lemma op_div_smallest_by_two :
  op_div false (-96) 80 (mkAmount cMinValue (-96)) amount_2 = AssertFail
  /\ op_div true (-96) 80 (mkAmount cMinValue (-96)) amount_2
     = Ret (mkAmount 5000000000000000 (-97)).
Proof. split; reflexivity. Qed.

Lemma op_add_zero_right_truncates_witness :
  canonical (-96) 80 amount_1_5
  /\ op_add false (-96) 80 amount_1_5 zeroAmount = Ret amount_1
  /\ op_eq amount_1 amount_1_5 = false.
Proof.
  split; [reflexivity | split; [| reflexivity]].
  rewrite (op_add_zero_right_truncates false (-96) 80 amount_1_5);
    solve [reflexivity | cbv; discriminate].
Defined.

Lemma op_sub_negative_underflow_witness :
  value amount_10 < value amount_50
  /\ op_sub false (-96) 80 amount_10 amount_50 = Throw value_underflow.
Proof.
  split; [reflexivity |].
  apply (op_sub_negative_underflow false (-96) 80 amount_10 amount_50
           (amount_10, amount_50)); reflexivity.
Defined.

(** C6 as stated fails: 10 - 50 would be negative, and the call does not
    end in "value overflow". *)
Lemma op_sub_negative_counterexample :
  align amount_10 amount_50 = Ret (amount_10, amount_50)
  /\ value amount_10 < value amount_50
  /\ op_sub false (-96) 80 amount_10 amount_50 = Throw value_underflow
  /\ op_sub false (-96) 80 amount_10 amount_50 <> Throw value_overflow.
Proof. repeat split. discriminate. Qed.

Lemma ordering_trichotomy_witness :
  (op_lt amount_10 amount_50 = true /\ op_eq amount_10 amount_50 = false
   /\ op_gt amount_10 amount_50 = false)
  \/ (op_lt amount_10 amount_50 = false /\ op_eq amount_10 amount_50 = true
      /\ op_gt amount_10 amount_50 = false)
  \/ (op_lt amount_10 amount_50 = false /\ op_eq amount_10 amount_50 = false
      /\ op_gt amount_10 amount_50 = true).
Proof.
  apply (ordering_trichotomy (-96) 80 amount_10 amount_50); reflexivity.
Defined.

Lemma getClaimed_partial_fill_example_witness :
  STAmount_new false (-96) 80 100 0 = Ret amount_100
  /\ STAmount_new false (-96) 80 50 0 = Ret amount_50
  /\ STAmount_new false (-96) 80 10 0 = Ret amount_10
  /\ STAmount_new false (-96) 80 20 0 = Ret amount_20
  /\ STAmount_new false (-96) 80 80 0 = Ret amount_80
  /\ STAmount_new false (-96) 80 40 0 = Ret amount_40
  /\ getClaimed false (-96) 80 partial_state
     = Ret (amount_20, mkState amount_80 amount_40 amount_10).
Proof. apply (getClaimed_partial_fill_example false (-96) 80); lia. Defined.

Lemma op_gt_zero_left_witness :
  op_gt zeroAmount amount_10 = true <-> value amount_10 <> 0.
Proof. apply (op_gt_zero_left zeroAmount amount_10); reflexivity. Defined.

Lemma partial_fill_subtraction_safe_witness :
  op_ge (paid partial_state) (offerIn partial_state) = false
  /\ op_mul false (-96) 80 (paid partial_state) (offerOut partial_state)
     = Ret amount_1000
  /\ op_div false (-96) 80 amount_1000 (offerIn partial_state) = Ret amount_20
  /\ op_gt amount_20 (offerOut partial_state) = false
  /\ op_le amount_20 (offerOut partial_state) = true
  /\ (exists al : STAmount * STAmount,
        align (offerOut partial_state) amount_20 = Ret al
        /\ (value (fst al) <? value (snd al)) = false)
  /\ op_sub false (-96) 80 (offerOut partial_state) amount_20
     <> Throw value_underflow.
Proof.
  split; [reflexivity | split; [reflexivity | split; [reflexivity |]]].
  apply (partial_fill_subtraction_safe false (-96) 80 partial_state
           amount_1000 amount_20);
    solve [reflexivity | cbv; discriminate].
Defined.

Lemma canonicalize_terminates_witness :
  0 <= value amount_sample < 2 ^ 64
  /\ canonicalize false (-96) 80 amount_sample <> OutOfFuel.
Proof.
  split; [unfold amount_sample; simpl; lia |].
  apply (canonicalize_terminates false (-96) 80 amount_sample).
  unfold amount_sample; simpl; lia.
Defined.

Lemma construct_rejects_biased_zero_witness :
  0 < 5 <= 255
  /\ construct false (-96) 80 [5 * 2 ^ 56] = Throw invalid_currency_value.
Proof.
  split; [lia |].
  apply (construct_rejects_biased_zero false (-96) 80 5 []). lia.
Defined.

Lemma canonicalize_idempotent_witness :
  canonicalize false (-96) 80 (mkAmount 100 0) = Ret amount_100
  /\ canonicalize false (-96) 80 amount_100 = Ret amount_100.
Proof.
  split; [reflexivity |].
  apply (canonicalize_idempotent false (-96) 80 (mkAmount 100 0) amount_100);
    [simpl; lia | reflexivity].
Defined.

Lemma canonicalize_value_witness :
  canonicalize false (-96) 80 (mkAmount 100 0) = Ret amount_100
  /\ ((offset amount_100 <= 0
       /\ value amount_100 = 100 * 10 ^ (0 - offset amount_100))
      \/ (0 < offset amount_100
          /\ value amount_100 = 100 / 10 ^ (offset amount_100 - 0))).
Proof.
  split; [reflexivity |].
  apply (canonicalize_value false (-96) 80 (mkAmount 100 0) amount_100);
    [simpl; lia | reflexivity].
Defined.


Lemma construct_accepts_canonical_only_witness :
  construct false (-96) 80 [word_sample] = Ret (amount_sample, [])
  /\ canonical (-96) 80 amount_sample
  /\ [] = ([] : SerializerIterator)
  /\ add amount_sample [] = [word_sample].
Proof.
  split; [reflexivity |].
  apply (construct_accepts_canonical_only false (-96) 80 word_sample [] []
           amount_sample); [unfold word_sample; lia | reflexivity].
Defined.

Lemma wire_word_injective_witness :
  wire_word amount_sample = wire_word (mkAmount 1234567890123456 (-1))
  /\ amount_sample = mkAmount 1234567890123456 (-1).
Proof.
  split; [reflexivity |].
  apply (wire_word_injective (-96) 80);
    [unfold cBias; lia | unfold cBias; lia | reflexivity .. ].
Defined.

Lemma relational_operators_numeric_witness :
  (op_lt amount_10 amount_50 = true <-> num_lt amount_10 amount_50)
  /\ (op_le amount_10 amount_50 = true <-> num_le amount_10 amount_50)
  /\ (op_gt amount_10 amount_50 = true <-> num_lt amount_50 amount_10)
  /\ (op_ge amount_10 amount_50 = true <-> num_le amount_50 amount_10).
Proof.
  apply (relational_operators_numeric (-96) 80 amount_10 amount_50);
    solve [reflexivity | cbv; discriminate].
Defined.

Lemma comparison_operators_consistent_witness :
  op_ge amount_10 amount_50 = negb (op_lt amount_10 amount_50)
  /\ op_le amount_10 amount_50 = negb (op_gt amount_10 amount_50)
  /\ op_gt amount_10 amount_50 = op_lt amount_50 amount_10
  /\ op_ge amount_10 amount_50 = op_le amount_50 amount_10
  /\ op_le amount_10 amount_50 = op_lt amount_10 amount_50 || op_eq amount_10 amount_50
  /\ op_ne amount_10 amount_50 = negb (op_eq amount_10 amount_50).
Proof.
  apply (comparison_operators_consistent amount_10 amount_50);
    cbv; discriminate.
Defined.

Lemma op_add_canonical_operands_witness :
  op_add false (-96) 80 amount_100 amount_50 = Ret amount_150.
Proof.
  rewrite (op_add_canonical_operands false (-96) 80 amount_100 amount_50);
    solve [reflexivity | cbv; discriminate].
Defined.

Lemma op_sub_returns_canonical_witness :
  op_sub false (-96) 80 amount_100 amount_20 = Ret amount_80
  /\ canonical (-96) 80 amount_80.
Proof.
  split; [reflexivity |].
  apply (op_sub_returns_canonical false (-96) 80 amount_100 amount_20 amount_80);
    solve [reflexivity | cbv; discriminate].
Defined.

Lemma op_mul_div_one_witness :
  op_mul false (-96) 80 amount_sample amount_1 = Ret amount_sample
  /\ op_div false (-96) 80 amount_sample amount_1 = Ret amount_sample.
Proof. apply (op_mul_div_one false (-96) 80 amount_sample); reflexivity. Defined.

Lemma op_div_self_witness :
  op_div false (-96) 80 amount_sample amount_sample = Ret amount_1
  /\ getRate false (-96) 80 amount_sample amount_sample = Ret amount_1.
Proof.
  apply (op_div_self false (-96) 80 amount_sample);
    solve [lia | reflexivity | cbv; discriminate].
Defined.

Lemma op_mul_largest_underflows_witness :
  op_mul false (-96) 80 (mkAmount cMaxValue 80) amount_2 = Throw value_underflow.
Proof.
  apply (op_mul_largest_underflows false (-96) 80 amount_2);
    solve [reflexivity | unfold cMinValue; simpl; lia].
Defined.

Lemma op_mul_largest_power_of_ten_witness :
  op_mul false (-96) 80 (mkAmount cMaxValue 80) (mkAmount cMinValue (-14))
  = (if false then Ret (mkAmount cMaxValue (80 + -14 + 15)) else AssertFail).
Proof. apply (op_mul_largest_power_of_ten false (-96) 80 (-14)); lia. Defined.

Lemma getClaimed_offer_dead_or_alive_witness :
  (value (paid partial_state) = 0 ->
   amount_20 = zeroAmount
   /\ mkState amount_80 amount_40 amount_10 = partial_state)
  /\ (value (paid partial_state) <> 0 ->
      (amount_80 = zeroAmount /\ amount_40 = zeroAmount)
      \/ (value amount_80 <> 0 /\ value amount_40 <> 0)).
Proof.
  apply (getClaimed_offer_dead_or_alive false (-96) 80 partial_state
           (mkState amount_80 amount_40 amount_10) amount_20).
  reflexivity.
Defined.

Lemma getClaimed_never_exceeds_witness :
  num_le amount_20 (offerOut partial_state)
  /\ num_le amount_10 (paid partial_state).
Proof.
  apply (getClaimed_never_exceeds false (-96) 80 partial_state
           (mkState amount_80 amount_40 amount_10) amount_20); reflexivity.
Defined.

Lemma integer_amount_100 : integer_amount 100 amount_100.
Proof. exists 13. unfold cMinValue, cMaxValue. repeat split; (lia || reflexivity). Qed.

Lemma integer_amount_50 : integer_amount 50 amount_50.
Proof. exists 14. unfold cMinValue, cMaxValue. repeat split; (lia || reflexivity). Qed.

Lemma integer_assignment_exact_witness :
  exists a : STAmount,
    integer_amount 100 a /\ canonical (-96) 80 a
    /\ STAmount_new false (-96) 80 100 0 = Ret a
    /\ op_assign_u64 false (-96) 80 zeroAmount 100 = Ret a.
Proof.
  apply (integer_assignment_exact false (-96) 80); unfold cMaxValue; lia.
Defined.

Lemma integer_addition_exact_witness :
  exists c : STAmount,
    integer_amount (100 + 50) c
    /\ op_add false (-96) 80 amount_100 amount_50 = Ret c
    /\ op_add_assign_u64 false (-96) 80 amount_100 50 = Ret c
    /\ STAmount_new false (-96) 80 (100 + 50) 0 = Ret c.
Proof.
  apply (integer_addition_exact false (-96) 80);
    solve [lia | unfold cMaxValue; lia
          | exact integer_amount_100 | exact integer_amount_50].
Defined.

Lemma integer_subtraction_exact_witness :
  exists c : STAmount,
    op_sub false (-96) 80 amount_100 amount_50 = Ret c
    /\ op_sub_assign_u64 false (-96) 80 amount_100 50 = Ret c
    /\ STAmount_new false (-96) 80 (100 - 50) 0 = Ret c
    /\ (50 < 100 -> integer_amount (100 - 50) c)
    /\ (50 = 100 -> c = zeroAmount).
Proof.
  apply (integer_subtraction_exact false (-96) 80);
    solve [lia | unfold cMaxValue; lia
          | exact integer_amount_100 | exact integer_amount_50].
Defined.

Lemma integer_multiplication_exact_witness :
  exists c : STAmount,
    integer_amount (100 * 50) c
    /\ op_mul false (-96) 80 amount_100 amount_50 = Ret c
    /\ STAmount_new false (-96) 80 (100 * 50) 0 = Ret c.
Proof.
  apply (integer_multiplication_exact false (-96) 80);
    solve [lia | unfold cMaxValue; lia
          | exact integer_amount_100 | exact integer_amount_50].
Defined.

Lemma integer_division_exact_witness :
  exists c : STAmount,
    integer_amount 2 c
    /\ op_div false (-96) 80 amount_100 amount_50 = Ret c
    /\ getRate false (-96) 80 amount_100 amount_50 = Ret c
    /\ STAmount_new false (-96) 80 2 0 = Ret c.
Proof.
  apply (integer_division_exact false (-96) 80 ltac:(lia) ltac:(lia)
           2 50 amount_100 amount_50);
    solve [lia | unfold cMaxValue; lia
          | exact integer_amount_100 | exact integer_amount_50].
Defined.
